(** * Git_Good: the commit gate-keeping scripts

    Shallow embedding of the two hook scripts of the repository:

    - [scripts/check-commit.js]  (module [CheckCommit]): reads the last
      commit message with [git log], and blocks when the message contains a
      trivial phrase AND the staged diff looks trivial;
    - the commit-message hook script (module [CommitMsg]): reads the message
      from the file named by [process.argv[2]] and blocks on a trivial
      phrase, a trivial regular expression, or a too short message.

    A JavaScript string is a sequence of UTF-16 code units.  The development
    covers the code units below 256 (ISO-8859-1), which is where the
    behaviour of [toLowerCase], [trim] and of the regular-expression classes
    is given by small tables; a code unit is an [ascii] and a string a list
    of them.  Beyond that range [toLowerCase] and the i flag follow the
    Unicode tables and can disagree (U+212A lower-cases to "k", and /k/i does
    not match it): statements about the case of letters are made for the
    letters A-Z. *)

From Stdlib Require Import Ascii String.
From Stdlib Require Import List Bool Arith Lia NArith.
Import ListNotations.

Set Implicit Arguments.

(** ** JavaScript strings *)

Module JS.

Definition jsstring : Type := list ascii.

(** String literals of the scripts. *)
Definition str (s : string) : jsstring := list_ascii_of_string s.

Definition code (c : ascii) : N := N_of_ascii c.

Definition inRange (lo hi : N) (c : ascii) : bool :=
  (lo <=? code c)%N && (code c <=? hi)%N.

(** ECMAScript WhiteSpace and LineTerminator code units below 256:
    TAB, LF, VT, FF, CR, SP and NBSP.  They are what [trim] strips and what
    the class [\s] contains. *)
Definition isLineTerminator (c : ascii) : bool :=
  (code c =? 10)%N || (code c =? 13)%N.

Definition isWhiteSpace (c : ascii) : bool :=
  inRange 9 13 c || (code c =? 32)%N || (code c =? 160)%N.

(** [String.prototype.toLowerCase], one code unit at a time: A-Z and the
    upper-case letters of the Latin-1 supplement (U+00C0..U+00DE but the
    multiplication sign U+00D7) move up by 32. *)
Definition lowerChar (c : ascii) : ascii :=
  if inRange 65 90 c
     || (inRange 192 222 c && negb (code c =? 215)%N)
  then ascii_of_N (code c + 32)
  else c.

Definition toLowerCase (s : jsstring) : jsstring := map lowerChar s.

(** [String.prototype.toUpperCase] of one code unit, as code units: the
    result may leave the range (U+00FF, U+00B5) or be two units long
    (U+00DF). *)
Definition upperUnits (c : ascii) : list N :=
  if inRange 97 122 c
     || (inRange 224 254 c && negb (code c =? 247)%N)
  then [(code c - 32)%N]
  else if (code c =? 255)%N then [376%N]
  else if (code c =? 181)%N then [924%N]
  else if (code c =? 223)%N then [83%N; 83%N]
  else [code c].

(** [String.prototype.trim]. *)
Fixpoint trimStart (s : jsstring) : jsstring :=
  match s with
  | c :: s' => if isWhiteSpace c then trimStart s' else s
  | [] => []
  end.

Definition trimEnd (s : jsstring) : jsstring := rev (trimStart (rev s)).

Definition trim (s : jsstring) : jsstring := trimEnd (trimStart s).

(** [String.prototype.startsWith] and [String.prototype.includes]. *)
Fixpoint startsWith (s p : jsstring) {struct p} : bool :=
  match p with
  | [] => true
  | a :: p' =>
      match s with
      | [] => false
      | c :: s' => Ascii.eqb a c && startsWith s' p'
      end
  end.

Fixpoint includes (s p : jsstring) : bool :=
  startsWith s p ||
  match s with
  | [] => false
  | _ :: s' => includes s' p
  end.

(** [Array.prototype.some] for a callback without effects. *)
Definition some {A} (f : A -> bool) (l : list A) : bool := existsb f l.

(** Truthiness of a string value: only the empty string is falsy. *)
Definition truthy (s : jsstring) : bool :=
  match s with [] => false | _ :: _ => true end.

End JS.

(** ** Regular expressions

    The abstract syntax of the patterns the scripts use, and the
    backtracking matcher of ECMAScript (matchers in continuation-passing
    style).  Capture groups only record text, which no script reads, so a
    group is its body. *)

Module RegExp.
Import JS.

Inductive CharClass : Type :=
| ClsSpace                      (* \s *)
| ClsWord                       (* \w *)
| ClsDigit                      (* \d *)
| ClsDot                        (* .  *)
| ClsRange (lo hi : ascii).     (* [lo-hi] *)

Inductive regex : Type :=
| Eps
| Chr (c : ascii)
| Cls (k : CharClass)
| Seq (r1 r2 : regex)
| Alt (r1 r2 : regex)
| Star (r : regex)
| Bol                           (* ^ without the m flag *)
| Eol.                          (* $ without the m flag *)

(** [r?], [r+] and a literal run of characters. *)
Definition Opt (r : regex) : regex := Alt r Eps.
Definition Plus (r : regex) : regex := Seq r (Star r).

Fixpoint seqs (l : list regex) : regex :=
  match l with
  | [] => Eps
  | [r] => r
  | r :: l' => Seq r (seqs l')
  end.

Fixpoint alts (l : list regex) : regex :=
  match l with
  | [] => Eps
  | [r] => r
  | r :: l' => Alt r (alts l')
  end.

Definition lit (s : string) : regex := seqs (map Chr (str s)).

(** The 256 code units. *)
Definition allUnits : list ascii :=
  Eval vm_compute in map ascii_of_nat (seq 0 256).

Definition classMember (k : CharClass) (c : ascii) : bool :=
  match k with
  | ClsSpace => isWhiteSpace c
  | ClsWord => inRange 97 122 c || inRange 65 90 c || inRange 48 57 c
               || (code c =? 95)%N
  | ClsDigit => inRange 48 57 c
  | ClsDot => negb (isLineTerminator c)
  | ClsRange lo hi => inRange (code lo) (code hi) c
  end.

(** Canonicalize of the specification, for a pattern without the u flag. *)
Definition canonicalize (ic : bool) (ch : ascii) : N :=
  if ic then
    match upperUnits ch with
    | [cu] => if (128 <=? code ch)%N && (cu <? 128)%N then code ch else cu
    | _ => code ch
    end
  else code ch.

Definition charMatch (ic : bool) (c ch : ascii) : bool :=
  (canonicalize ic c =? canonicalize ic ch)%N.

(** A class matches [ch] when one of its members canonicalizes like [ch].
    The members of [\s] above 255 have no case, and the other classes have
    none, so the members below 256 decide. *)
Definition classMatch (ic : bool) (k : CharClass) (ch : ascii) : bool :=
  if ic then
    existsb (fun a => classMember k a
                      && (canonicalize ic a =? canonicalize ic ch)%N) allUnits
  else classMember k ch.

Definition Cont : Type := jsstring -> option jsstring.

(** RepeatMatcher for [r*]: greedy, and an iteration that consumes nothing
    is rejected.  [fuel] bounds the iterations; each one shortens the rest of
    the input, so the length of the rest plus one is enough. *)
Fixpoint repeatMatcher (mb : jsstring -> Cont -> option jsstring)
  (fuel : nat) (x : jsstring) (k : Cont) : option jsstring :=
  match fuel with
  | O => k x
  | S fuel' =>
      match mb x (fun y => if length y <? length x
                           then repeatMatcher mb fuel' y k else None) with
      | Some e => Some e
      | None => k x
      end
  end.

(** [matcher ic n r x k]: match [r] against the rest [x] of an input of
    length [n], then continue with [k] on what is left. *)
Fixpoint matcher (ic : bool) (n : nat) (r : regex) (x : jsstring) (k : Cont)
  {struct r} : option jsstring :=
  match r with
  | Eps => k x
  | Chr c =>
      match x with
      | ch :: x' => if charMatch ic c ch then k x' else None
      | [] => None
      end
  | Cls cl =>
      match x with
      | ch :: x' => if classMatch ic cl ch then k x' else None
      | [] => None
      end
  | Seq r1 r2 => matcher ic n r1 x (fun y => matcher ic n r2 y k)
  | Alt r1 r2 =>
      match matcher ic n r1 x k with
      | Some e => Some e
      | None => matcher ic n r2 x k
      end
  | Star r' => repeatMatcher (matcher ic n r') (S (length x)) x k
  | Bol => if length x =? n then k x else None
  | Eol => match x with [] => k x | _ :: _ => None end
  end.

(** The leftmost match at or after the position of [x]: start and end
    index. *)
Fixpoint scan (ic : bool) (n : nat) (r : regex) (x : jsstring)
  : option (nat * nat) :=
  match matcher ic n r x (@Some jsstring) with
  | Some e => Some (n - length x, n - length e)
  | None =>
      match x with
      | [] => None
      | _ :: x' => scan ic n r x'
      end
  end.

(** A RegExp object: the pattern, its flags and the mutable [lastIndex]. *)
Record RegExp : Type := mkRegExp {
  source : regex;
  ignoreCase : bool;
  global : bool;
  lastIndex : nat
}.

(** A literal [/.../] or [/.../i]. *)
Definition literal (r : regex) (i : bool) : RegExp := mkRegExp r i false 0.

Definition setLastIndex (R : RegExp) (i : nat) : RegExp :=
  mkRegExp (source R) (ignoreCase R) (global R) i.

(** RegExpBuiltinExec: the match, and the object afterwards.  Only a global
    pattern reads and writes [lastIndex]. *)
Definition RegExpBuiltinExec (R : RegExp) (s : jsstring)
  : option (nat * nat) * RegExp :=
  let start := if global R then lastIndex R else 0 in
  if length s <? start then
    (None, if global R then setLastIndex R 0 else R)
  else
    match scan (ignoreCase R) (length s) (source R) (skipn start s) with
    | Some (i, e) => (Some (i, e), if global R then setLastIndex R e else R)
    | None => (None, if global R then setLastIndex R 0 else R)
    end.

Definition isMatch (m : option (nat * nat)) : bool :=
  match m with Some _ => true | None => false end.

(** [RegExp.prototype.test]. *)
Definition test (R : RegExp) (s : jsstring) : bool * RegExp :=
  let (m, R') := RegExpBuiltinExec R s in (isMatch m, R').

(** [String.prototype.match] with a pattern that is not global. *)
Definition stringMatch (s : jsstring) (R : RegExp) : option (nat * nat) :=
  fst (RegExpBuiltinExec R s).

(** [array.some((regex) => regex.test(s))] over an array of RegExp objects:
    stops at the first hit; the objects tested are the ones [test] leaves. *)
Fixpoint someTest (rs : list RegExp) (s : jsstring) : bool * list RegExp :=
  match rs with
  | [] => (false, [])
  | R :: rs' =>
      let (b, R') := test R s in
      if b then (true, R' :: rs')
      else let (b', rs'') := someTest rs' s in (b', R' :: rs'')
  end.

(** The answer of [test] when the search starts at index 0, as it does for
    a pattern that is not global. *)
Definition hit (s : jsstring) (R : RegExp) : bool :=
  isMatch (scan (ignoreCase R) (length s) (source R) s).

(** What the matcher computes, as a relation: [Matches ic n r x y] when [r]
    matches the part of [x] that ends where [y] starts, in an input of
    length [n]. *)
Inductive Matches (ic : bool) (n : nat) : regex -> jsstring -> jsstring -> Prop :=
| MEps x : Matches ic n Eps x x
| MChr c ch x : charMatch ic c ch = true -> Matches ic n (Chr c) (ch :: x) x
| MCls k ch x : classMatch ic k ch = true -> Matches ic n (Cls k) (ch :: x) x
| MSeq r1 r2 x y z :
    Matches ic n r1 x y -> Matches ic n r2 y z -> Matches ic n (Seq r1 r2) x z
| MAltL r1 r2 x y : Matches ic n r1 x y -> Matches ic n (Alt r1 r2) x y
| MAltR r1 r2 x y : Matches ic n r2 x y -> Matches ic n (Alt r1 r2) x y
| MStar0 r x : Matches ic n (Star r) x x
| MStarS r x y z :
    Matches ic n r x y -> length y < length x ->
    Matches ic n (Star r) y z -> Matches ic n (Star r) x z
| MBol x : length x = n -> Matches ic n Bol x x
| MEol : Matches ic n Eol [] [].

(** Patterns every match of which starts at index 0, and ends at the end of
    the input. *)
Fixpoint startAnchored (r : regex) : bool :=
  match r with
  | Bol => true
  | Seq r1 _ => startAnchored r1
  | Alt r1 r2 => startAnchored r1 && startAnchored r2
  | _ => false
  end.

Fixpoint endAnchored (r : regex) : bool :=
  match r with
  | Eol => true
  | Seq _ r2 => endAnchored r2
  | Alt r1 r2 => endAnchored r1 && endAnchored r2
  | _ => false
  end.

(** Patterns that cannot tell a code unit from its lower-case form: the
    ones with the i flag, and without it those whose characters and classes
    have no letter. *)
Fixpoint caseBlind (ic : bool) (r : regex) : bool :=
  match r with
  | Chr c =>
      ic || forallb (fun ch => Bool.eqb (charMatch false c (lowerChar ch))
                                        (charMatch false c ch)) allUnits
  | Cls k =>
      ic || forallb (fun ch => Bool.eqb (classMatch false k (lowerChar ch))
                                        (classMatch false k ch)) allUnits
  | Seq r1 r2 | Alt r1 r2 => caseBlind ic r1 && caseBlind ic r2
  | Star r' => caseBlind ic r'
  | Eps | Bol | Eol => true
  end.

End RegExp.

(** ** The Node.js environment of a run

    What the scripts read from outside: [process.argv[2]], the file system
    seen by [fs], and the two git subprocesses started by [execSync]. *)

Module Node.
Import JS.

(** A value, or an exception thrown. *)
Inductive Result (A : Type) : Type :=
| Ok (a : A)
| Throw.
Arguments Ok {A} a.
Arguments Throw {A}.

(** What a command did: its exit status (a command that could not be
    started or was killed counts as a status other than 0), the text it
    printed on its standard output, and the number of bytes it printed on
    its standard error. *)
Record ProcResult : Type := mkProcResult {
  status : N;
  stdout : jsstring;
  stderrBytes : N
}.

(** A command that prints nothing on its standard error. *)
Definition mkProc (status : N) (stdout : jsstring) : ProcResult :=
  mkProcResult status stdout 0.

(** The default [maxBuffer] of [child_process]: 1024 * 1024 bytes. *)
Definition maxBuffer : N := 1048576.

(** The size in bytes of a text in UTF-8: one byte for a code unit below
    128, two for the others below 256. *)
Definition utf8Length (s : jsstring) : N :=
  fold_right (fun c n => ((if (code c <? 128)%N then 1 else 2) + n)%N) 0%N s.

Definition outputBytes (p : ProcResult) : N :=
  (utf8Length (stdout p) + stderrBytes p)%N.

(** [execSync(cmd).toString()], called without options: throws when the
    command exits with a status other than 0, and also (ENOBUFS) when what
    it printed is more than [maxBuffer] bytes, whatever its status. *)
Definition execSync (p : ProcResult) : Result jsstring :=
  if (status p =? 0)%N && (outputBytes p <=? maxBuffer)%N
  then Ok (stdout p) else Throw.

Inductive FsEntry : Type :=
| NoEntry
| RegularFile (content : jsstring)
| NotReadable.                  (* exists, but reading it throws *)

Definition existsSync (e : FsEntry) : bool :=
  match e with NoEntry => false | _ => true end.

Definition readFileSync (e : FsEntry) : Result jsstring :=
  match e with RegularFile c => Ok c | _ => Throw end.

Record Env : Type := mkEnv {
  argv2 : option jsstring;            (* process.argv[2] *)
  fsEntry : jsstring -> FsEntry;      (* the file system, by path *)
  gitLog : ProcResult;                (* git log -1 --pretty=%B *)
  gitDiffCached : ProcResult          (* git diff --cached *)
}.

(** How a run ends: [process.exit(code)] after the lines logged, or an
    exception nobody catches (Node then prints it and exits with 1). *)
Inductive Outcome (L : Type) : Type :=
| Exit (code : N) (out : list L)
| Uncaught.
Arguments Exit {L} code out.
Arguments Uncaught {L}.

Definition exitStatus {L} (o : Outcome L) : N :=
  match o with Exit c _ => c | Uncaught => 1%N end.

Definition bind {A L} (r : Result A) (k : A -> Outcome L) : Outcome L :=
  match r with Ok a => k a | Throw => Uncaught end.

End Node.

Notation "x <- e ;; k" := (Node.bind e (fun x => k))
  (at level 61, e at next level, right associativity).

(** The verdict of the classifier, in the words of the specification. *)
Inductive ClassificationResult : Type := Allowed | Blocked.

(** ** scripts/check-commit.js *)

Module CheckCommit.
Import JS RegExp Node.

Definition trivialPatterns : list jsstring := map str [
  "fix typo";
  "minor update";
  "update docs";
  "correct spelling";
  "adjust format";
  "refactor whitespace"
]%string.

Definition getLastCommitMessage (env : Env) : Result jsstring :=
  match execSync (gitLog env) with
  | Ok out => Ok (trim out)
  | Throw => Throw
  end.

Definition getStagedChanges (env : Env) : Result jsstring :=
  match execSync (gitDiffCached env) with
  | Ok out => Ok (trim out)
  | Throw => Throw
  end.

(** The two alternatives of [/(\s{2,}|^\+.*\.(md|txt|rst)$)/]. *)
Definition whitespaceRun : regex :=
  seqs [Cls ClsSpace; Cls ClsSpace; Star (Cls ClsSpace)].

Definition docAddition : regex :=
  seqs [Bol; Chr "+"; Star (Cls ClsDot); Chr ".";
        alts [lit "md"; lit "txt"; lit "rst"]; Eol].

Definition isTrivialChange (diff : jsstring) : option (nat * nat) :=
  stringMatch diff (literal (Alt whitespaceRun docAddition) false).

Inductive Line : Type :=
| LogError        (* ERROR: It seems like you're committing trivial changes
                     (fixing typos, docs, etc.). *)
| LogAmend        (* Please use 'git commit --amend' to amend your previous
                     commit. *)
| LogOkay.        (* Commit message and changes are okay. Proceeding... *)

Definition isTrivialCommitMessage (commitMessage : jsstring) : bool :=
  some (fun pattern => includes (toLowerCase commitMessage) pattern)
       trivialPatterns.

Definition main (env : Env) : Outcome Line :=
  commitMessage <- getLastCommitMessage env ;;
  diff <- getStagedChanges env ;;
  if isTrivialCommitMessage commitMessage && isMatch (isTrivialChange diff)
  then Exit 1 [LogError; LogAmend]
  else Exit 0 [LogOkay].

End CheckCommit.

(** ** The commit-message hook script (message read from a file) *)

Module CommitMsg.
Import JS RegExp Node.

Definition trivialPatterns : list jsstring := map str [
  (* Typo/spelling related *)
  "fix typo"; "typo"; "fixed typo"; "correct typo"; "spelling";
  "correct spelling"; "fixed spelling"; "grammar"; "fix grammar";
  (* Minor/small changes *)
  "minor"; "minor update"; "minor fix"; "minor change"; "small fix";
  "small change"; "tiny fix"; "quick fix"; "hotfix typo";
  (* Formatting/whitespace *)
  "format"; "formatting"; "fix format"; "adjust format"; "fix formatting";
  "whitespace"; "refactor whitespace"; "fix whitespace"; "indentation";
  "fix indentation"; "lint"; "linting"; "fix lint"; "prettier";
  "eslint fix";
  (* Documentation trivial *)
  "update docs"; "docs update"; "readme update"; "update readme";
  "comment"; "add comment"; "fix comment"; "update comment";
  (* Misc trivial *)
  "cleanup"; "clean up"; "tidy"; "tidy up"; "cosmetic"; "nit"; "nitpick";
  "oops"; "wip"; "temp"; "test commit"; "remove console.log"; "remove log";
  "remove debug"; "fix import"; "unused import"; "remove unused"
]%string.

Definition ws : regex := Cls ClsSpace.
Definition word : regex := Cls ClsWord.

Definition trivialRegexPatterns : list RegExp := [
  (* /^fix(ed|es|ing)?\s*(a\s+)?typo(s)?$/i *)
  literal (seqs [Bol; lit "fix"; Opt (alts [lit "ed"; lit "es"; lit "ing"]);
                 Star ws; Opt (seqs [lit "a"; Plus ws]); lit "typo";
                 Opt (lit "s"); Eol]) true;
  (* /^typo(s)?$/i *)
  literal (seqs [Bol; lit "typo"; Opt (lit "s"); Eol]) true;
  (* /^minor(\s+\w+)?$/i *)
  literal (seqs [Bol; lit "minor"; Opt (seqs [Plus ws; Plus word]); Eol]) true;
  (* /^small(\s+\w+)?$/i *)
  literal (seqs [Bol; lit "small"; Opt (seqs [Plus ws; Plus word]); Eol]) true;
  (* /^quick(\s+\w+)?$/i *)
  literal (seqs [Bol; lit "quick"; Opt (seqs [Plus ws; Plus word]); Eol]) true;
  (* /^wip$/i *)
  literal (seqs [Bol; lit "wip"; Eol]) true;
  (* /^temp$/i *)
  literal (seqs [Bol; lit "temp"; Eol]) true;
  (* /^test$/i *)
  literal (seqs [Bol; lit "test"; Eol]) true;
  (* /^\.+$/ *)
  literal (seqs [Bol; Plus (Chr "."); Eol]) false;
  (* /^-+$/ *)
  literal (seqs [Bol; Plus (Chr "-"); Eol]) false;
  (* /^update(d|s)?$/i *)
  literal (seqs [Bol; lit "update"; Opt (alts [lit "d"; lit "s"]); Eol]) true;
  (* /^fix(ed|es)?$/i *)
  literal (seqs [Bol; lit "fix"; Opt (alts [lit "ed"; lit "es"]); Eol]) true;
  (* /^change(d|s)?$/i *)
  literal (seqs [Bol; lit "change"; Opt (alts [lit "d"; lit "s"]); Eol]) true;
  (* /^edit(ed|s)?$/i *)
  literal (seqs [Bol; lit "edit"; Opt (alts [lit "ed"; lit "s"]); Eol]) true;
  (* /^oops!?$/i *)
  literal (seqs [Bol; lit "oops"; Opt (Chr "!"); Eol]) true;
  (* /^fmt$/i *)
  literal (seqs [Bol; lit "fmt"; Eol]) true;
  (* /^lint(ing)?$/i *)
  literal (seqs [Bol; lit "lint"; Opt (lit "ing"); Eol]) true;
  (* /^cleanup$/i *)
  literal (seqs [Bol; lit "cleanup"; Eol]) true;
  (* /^refactor$/i *)
  literal (seqs [Bol; lit "refactor"; Eol]) true;
  (* /^stuff$/i *)
  literal (seqs [Bol; lit "stuff"; Eol]) true;
  (* /^things$/i *)
  literal (seqs [Bol; lit "things"; Eol]) true;
  (* /^misc$/i *)
  literal (seqs [Bol; lit "misc"; Eol]) true;
  (* /^[a-z]$/i *)
  literal (seqs [Bol; Cls (ClsRange "a" "z"); Eol]) true;
  (* /^\d+$/ *)
  literal (seqs [Bol; Plus (Cls ClsDigit); Eol]) false
].

Definition getCommitMessage (env : Env) : Result jsstring :=
  match argv2 env with
  | Some commitMsgFile =>
      if truthy commitMsgFile && existsSync (fsEntry env commitMsgFile)
      then match readFileSync (fsEntry env commitMsgFile) with
           | Ok text => Ok (trim text)
           | Throw => Throw
           end
      else Ok []
  | None => Ok []
  end.

Definition getStagedChanges (env : Env) : Result jsstring :=
  match execSync (gitDiffCached env) with
  | Ok out => Ok (trim out)
  | Throw => Throw
  end.

Definition isTrivialChange (diff : jsstring) : option (nat * nat) :=
  stringMatch diff
    (literal (Alt (seqs [Cls ClsSpace; Cls ClsSpace; Star (Cls ClsSpace)])
                  (seqs [Bol; Chr "+"; Star (Cls ClsDot); Chr ".";
                         alts [lit "md"; lit "txt"; lit "rst"]; Eol]))
             false).

(** The three constants [main] computes from the message. *)
Record Flags : Type := mkFlags {
  isTrivialCommitMessage : bool;
  matchesTrivialRegex : bool;
  isTooShort : bool
}.

(** Lines 136-146 of [main], from the array of RegExp objects as it is
    before to the array as it is after. *)
Definition checks (commitMessage : jsstring) (regexes : list RegExp)
  : Flags * list RegExp :=
  let a := some (fun pattern =>
                   includes (toLowerCase commitMessage) (toLowerCase pattern))
                trivialPatterns in
  let (b, regexes') := someTest regexes (trim commitMessage) in
  let c := length (trim commitMessage) <? 4 in
  (mkFlags a b c, regexes').

(** The condition of the [if] that blocks. *)
Definition blocks (f : Flags) : bool :=
  isTrivialCommitMessage f || matchesTrivialRegex f || isTooShort f.

Definition flagsOf (commitMessage : jsstring) : Flags :=
  fst (checks commitMessage trivialRegexPatterns).

Definition classify (commitMessage : jsstring) : ClassificationResult :=
  if blocks (flagsOf commitMessage) then Blocked else Allowed.

Inductive Line : Type :=
| LogDetected (commitMessage : jsstring)
                  (* ERROR: Trivial commit message detected: "..." *)
| LogMeaningful   (* This type of change should be included in a meaningful
                     commit. *)
| LogAmend        (* Please use 'git commit --amend' to amend your previous
                     commit instead. *)
| LogHistory      (* This keeps the git history clean by avoiding separate
                     commits for typos/minor fixes. *)
| LogOkay.        (* Commit message is okay. Proceeding... *)

Definition main (env : Env) : Outcome Line :=
  commitMessage <- getCommitMessage env ;;
  diff <- getStagedChanges env ;;
  if negb (truthy commitMessage) then Exit 0 []
  else
    let (f, _) := checks commitMessage trivialRegexPatterns in
    if isTrivialCommitMessage f || matchesTrivialRegex f || isTooShort f
    then Exit 1 [LogDetected commitMessage; LogMeaningful; LogAmend; LogHistory]
    else Exit 0 [LogOkay].

End CommitMsg.

(** ** The shapes of a diff the claims speak of *)

Module DiffShape.
Import JS.

(** Two white-space code units next to each other, anywhere. *)
Definition hasWhitespaceRun (d : jsstring) : Prop :=
  exists a c1 c2 b,
    d = a ++ c1 :: c2 :: b /\ isWhiteSpace c1 = true /\ isWhiteSpace c2 = true.

Definition docExtensions : list jsstring := map str ["md"; "txt"; "rst"]%string.

(** The whole text is one line, a [+] followed by a path that ends in a
    documentation extension. *)
Definition isDocAddition (d : jsstring) : Prop :=
  exists body ext,
    d = "+"%char :: body ++ "."%char :: ext /\
    Forall (fun c => isLineTerminator c = false) body /\
    In ext docExtensions.

End DiffShape.

(** ** Sample runs *)

Module Samples.
Import JS Node.

Definition msgFile : jsstring := str ".git/COMMIT_EDITMSG".

Definition sameString (a b : jsstring) : bool :=
  startsWith a b && (length a =? length b).

(** A run as the commit-msg hook: the message file holds [content], and
    [git diff --cached] ends as [diff] says. *)
Definition hookRun (content : jsstring) (diff : ProcResult) : Env :=
  mkEnv (Some msgFile)
        (fun path => if sameString path msgFile then RegularFile content
                     else NoEntry)
        (mkProc 0 []) diff.

(** A run without argument in a repository that has no commit yet:
    [git log -1] ends with status 128 ("your current branch does not have
    any commits yet"), [git diff --cached] with status 0. *)
Definition zeroCommits : Env :=
  mkEnv None (fun _ => NoEntry) (mkProc 128 []) (mkProc 0 []).

(** A run without argument in which [git diff --cached] fails (status 128
    is what git gives outside a work tree or on a broken index). *)
Definition diffFails : Env :=
  mkEnv None (fun _ => NoEntry) (mkProc 0 (str "Add parser")) (mkProc 128 []).

(** A run whose argument names no file, in which [git diff --cached]
    works, and one in which it fails. *)
Definition missingFile : Env :=
  mkEnv (Some msgFile) (fun _ => NoEntry) (mkProc 0 []) (mkProc 0 []).

Definition missingFileDiffFails : Env :=
  mkEnv (Some msgFile) (fun _ => NoEntry) (mkProc 0 []) (mkProc 128 []).

(** A run without argument in which [git diff --cached] ends with status
    0 after more output than [maxBuffer] holds. *)
Definition diffTooBig : Env :=
  mkEnv None (fun _ => NoEntry) (mkProc 0 (str "Add parser"))
        (mkProcResult 0 (str "diff --git a/x b/x") 1048576).

(** A run of scripts/check-commit.js: last commit message and staged diff
    as printed by git. *)
Definition preCommitRun (lastMessage diff : jsstring) : Env :=
  mkEnv None (fun _ => NoEntry) (mkProc 0 lastMessage) (mkProc 0 diff).

(** A pattern with the g flag, which none of the scripts has: [test] moves
    its [lastIndex]. *)
Definition globalA : RegExp.RegExp :=
  RegExp.mkRegExp (RegExp.Chr "a") false true 0.

End Samples.

(** ** Shapes of a message, and the rules that overlap *)

Module MessageShape.
Import JS RegExp.

Definition allWhiteSpace (s : jsstring) : bool := forallb isWhiteSpace s.

(** A text that is not empty and neither starts nor ends with white
    space. *)
Definition edgeFree (p : jsstring) : bool :=
  match p with
  | [] => false
  | c :: _ => negb (isWhiteSpace c) && negb (isWhiteSpace (last p c))
  end.

Definition isDigit (c : ascii) : bool := inRange 48 57 c.

(** A code unit with the letters A-Z folded to a-z, and nothing else
    changed. *)
Definition foldAscii (c : ascii) : ascii :=
  if inRange 65 90 c then ascii_of_N (code c + 32) else c.

(** Two texts that differ in the case of letters of A-Z / a-z only. *)
Definition sameUpToAsciiCase (m m' : jsstring) : Prop :=
  map foldAscii m = map foldAscii m'.

Definition eqString (a b : jsstring) : bool :=
  startsWith a b && (length a =? length b).

(** The phrases of the commit-message script that contain no other phrase
    of its list. *)
Definition minimalPhrases : list jsstring :=
  filter (fun p =>
            negb (existsb (fun q => negb (eqString q p) && includes p q)
                          CommitMsg.trivialPatterns))
         CommitMsg.trivialPatterns.

Definition class_eqb (k1 k2 : CharClass) : bool :=
  match k1, k2 with
  | ClsSpace, ClsSpace | ClsWord, ClsWord
  | ClsDigit, ClsDigit | ClsDot, ClsDot => true
  | ClsRange a b, ClsRange c d => Ascii.eqb a c && Ascii.eqb b d
  | _, _ => false
  end.

Fixpoint regex_eqb (r1 r2 : regex) : bool :=
  match r1, r2 with
  | Eps, Eps | Bol, Bol | Eol, Eol => true
  | Chr a, Chr b => Ascii.eqb a b
  | Cls k1, Cls k2 => class_eqb k1 k2
  | Seq a b, Seq c d | Alt a b, Alt c d => regex_eqb a c && regex_eqb b d
  | Star a, Star b => regex_eqb a b
  | _, _ => false
  end.

(** [needs r p]: the literal [p] is a part of [r] that no match can go
    around (it sits on the spine of the sequence, or in both branches of an
    alternative). *)
Fixpoint needs (r : regex) (p : jsstring) : bool :=
  regex_eqb r (seqs (map Chr p)) ||
  match r with
  | Seq r1 r2 => needs r1 p || needs r2 p
  | Alt r1 r2 => needs r1 p && needs r2 p
  | _ => false
  end.

(** The patterns of the commit-message script with the i flag that need a
    phrase of its phrase list. *)
Definition phraseCovered : list RegExp :=
  filter (fun R => ignoreCase R
                   && existsb (fun p => negb (length p =? 0)
                                        && needs (source R) p)
                              CommitMsg.trivialPatterns)
         CommitMsg.trivialRegexPatterns.

(** The longest text a pattern can match, when there is one. *)
Fixpoint maxLen (r : regex) : option nat :=
  match r with
  | Eps | Bol | Eol => Some 0
  | Chr _ | Cls _ => Some 1
  | Seq r1 r2 =>
      match maxLen r1, maxLen r2 with
      | Some a, Some b => Some (a + b)
      | _, _ => None
      end
  | Alt r1 r2 =>
      match maxLen r1, maxLen r2 with
      | Some a, Some b => Some (Nat.max a b)
      | _, _ => None
      end
  | Star _ => None
  end.

(** The patterns of the commit-message script that match fewer than 4 code
    units at most. *)
Definition lengthCovered : list RegExp :=
  filter (fun R => match maxLen (source R) with
                   | Some k => k <? 4
                   | None => false
                   end)
         CommitMsg.trivialRegexPatterns.

End MessageShape.

(** * Properties *)

(** ** Strings *)

Section StringFacts.
Import JS.

Lemma startsWith_app (p b : jsstring) : startsWith (p ++ b) p = true.
Proof.
  induction p as [|a p IH]; simpl; [reflexivity|].
  now rewrite Ascii.eqb_refl, IH.
Qed.

Lemma startsWith_inv (p s : jsstring) :
  startsWith s p = true -> exists b, s = p ++ b.
Proof.
  revert s; induction p as [|a p IH]; intros s H.
  - now exists s.
  - destruct s as [|c s]; simpl in H; [discriminate|].
    apply andb_prop in H as [Hc Hs].
    apply Ascii.eqb_eq in Hc; subst c.
    destruct (IH _ Hs) as [b ->]. now exists b.
Qed.

Lemma includes_startsWith (s p : jsstring) :
  startsWith s p = true -> includes s p = true.
Proof. intros H. destruct s; simpl; rewrite H; reflexivity. Qed.

Lemma includes_app (a p b : jsstring) : includes (a ++ p ++ b) p = true.
Proof.
  induction a as [|c a IH]; simpl.
  - apply includes_startsWith, startsWith_app.
  - rewrite IH. apply orb_true_r.
Qed.

Lemma includes_inv (s p : jsstring) :
  includes s p = true -> exists a b, s = a ++ p ++ b.
Proof.
  induction s as [|c s IH]; simpl; intros H.
  - rewrite orb_false_r in H. apply startsWith_inv in H as [b ->].
    now exists [], b.
  - apply orb_prop in H as [H|H].
    + apply startsWith_inv in H as [b ->]. now exists [], b.
    + destruct (IH H) as (a & b & ->). now exists (c :: a), b.
Qed.

Lemma includes_refl (p : jsstring) : includes p p = true.
Proof.
  rewrite <- (app_nil_r p) at 1. apply (includes_app [] p []).
Qed.

Lemma toLowerCase_app (a b : jsstring) :
  toLowerCase (a ++ b) = toLowerCase a ++ toLowerCase b.
Proof. apply map_app. Qed.

Lemma toLowerCase_length (s : jsstring) :
  length (toLowerCase s) = length s.
Proof. apply length_map. Qed.

Lemma allUnits_complete (c : ascii) : In c RegExp.allUnits.
Proof.
  replace RegExp.allUnits with (map ascii_of_nat (seq 0 256))
    by (vm_compute; reflexivity).
  rewrite <- (ascii_nat_embedding c).
  apply in_map, in_seq. pose proof (nat_ascii_bounded c). lia.
Qed.

(** A property checked on the 256 code units holds of every code unit. *)
Lemma forall_units (P : ascii -> bool) :
  forallb P RegExp.allUnits = true -> forall c, P c = true.
Proof.
  intros H c. rewrite forallb_forall in H. apply H, allUnits_complete.
Qed.

Lemma lowerChar_idem (c : ascii) : lowerChar (lowerChar c) = lowerChar c.
Proof.
  revert c. 
  assert (H : forallb (fun c => Ascii.eqb (lowerChar (lowerChar c)) (lowerChar c))
                RegExp.allUnits = true) by (vm_compute; reflexivity).
  intros c. apply Ascii.eqb_eq. revert c. now apply forall_units.
Qed.

Lemma lowerChar_space (c : ascii) : isWhiteSpace (lowerChar c) = isWhiteSpace c.
Proof.
  assert (H : forallb (fun c => Bool.eqb (isWhiteSpace (lowerChar c)) (isWhiteSpace c))
                RegExp.allUnits = true) by (vm_compute; reflexivity).
  apply Bool.eqb_prop. revert c. now apply forall_units.
Qed.

Lemma toLowerCase_idem (s : jsstring) :
  toLowerCase (toLowerCase s) = toLowerCase s.
Proof.
  unfold toLowerCase. rewrite map_map. apply map_ext, lowerChar_idem.
Qed.

Lemma trimStart_lower (s : jsstring) :
  trimStart (toLowerCase s) = toLowerCase (trimStart s).
Proof.
  induction s as [|c s IH]; simpl; [reflexivity|].
  rewrite lowerChar_space. destruct (isWhiteSpace c); [exact IH | reflexivity].
Qed.

Lemma rev_lower (s : jsstring) : rev (toLowerCase s) = toLowerCase (rev s).
Proof. unfold toLowerCase. now rewrite map_rev. Qed.

Lemma trim_lower (s : jsstring) : trim (toLowerCase s) = toLowerCase (trim s).
Proof.
  unfold trim, trimEnd.
  now rewrite trimStart_lower, rev_lower, trimStart_lower, rev_lower.
Qed.

End StringFacts.

(** ** The matcher against the relation *)

Section MatcherFacts.
Import JS RegExp.

Variable ic : bool.
Variable n : nat.

Lemma repeatMatcher_sound (r : regex) :
  (forall x k e, matcher ic n r x k = Some e ->
                 exists y, Matches ic n r x y /\ k y = Some e) ->
  forall fuel x k e,
    repeatMatcher (matcher ic n r) fuel x k = Some e ->
    exists y, Matches ic n (Star r) x y /\ k y = Some e.
Proof.
  intros IHr fuel. induction fuel as [|fuel IH]; intros x k e H; simpl in H.
  - exists x. split; [constructor | exact H].
  - destruct (matcher ic n r x _) as [e'|] eqn:E.
    + injection H as ->.
      apply IHr in E as (y & Hy & Hk).
      destruct (length y <? length x) eqn:L; [|discriminate].
      apply Nat.ltb_lt in L.
      apply IH in Hk as (z & Hz & Hkz).
      exists z. split; [eapply MStarS; eauto | exact Hkz].
    + exists x. split; [constructor | exact H].
Qed.

Lemma matcher_sound (r : regex) :
  forall x k e, matcher ic n r x k = Some e ->
                exists y, Matches ic n r x y /\ k y = Some e.
Proof.
  induction r as [|c|cl|r1 IH1 r2 IH2|r1 IH1 r2 IH2|r IH| |];
    intros x k e H; simpl in H.
  - exists x. split; [constructor | exact H].
  - destruct x as [|ch x]; [discriminate|].
    destruct (charMatch ic c ch) eqn:E; [|discriminate].
    exists x. split; [now constructor | exact H].
  - destruct x as [|ch x]; [discriminate|].
    destruct (classMatch ic cl ch) eqn:E; [|discriminate].
    exists x. split; [now constructor | exact H].
  - apply IH1 in H as (y & Hy & H). apply IH2 in H as (z & Hz & H).
    exists z. split; [econstructor; eauto | exact H].
  - destruct (matcher ic n r1 x k) as [e'|] eqn:E.
    + injection H as ->. apply IH1 in E as (y & Hy & Hk).
      exists y. split; [now apply MAltL | exact Hk].
    + apply IH2 in H as (y & Hy & Hk).
      exists y. split; [now apply MAltR | exact Hk].
  - apply (@repeatMatcher_sound r IH (S (length x)) x k e). exact H.
  - destruct (length x =? n) eqn:E; [|discriminate].
    apply Nat.eqb_eq in E.
    exists x. split; [now constructor | exact H].
  - destruct x; [|discriminate].
    exists []. split; [constructor | exact H].
Qed.

Lemma repeatMatcher_complete (r : regex) :
  (forall x y, Matches ic n r x y ->
     forall k, k y <> None -> matcher ic n r x k <> None) ->
  forall x z, Matches ic n (Star r) x z ->
  forall fuel k, length x < fuel -> k z <> None ->
    repeatMatcher (matcher ic n r) fuel x k <> None.
Proof.
  intros IHr x z M. remember (Star r) as sr eqn:Esr.
  induction M as [| | | | | |r0 x|r0 x y z Mxy _ L Myz IH| |];
    try discriminate; injection Esr as ->; intros fuel k Hf Hk.
  - destruct fuel as [|fuel]; [lia|]. simpl.
    destruct (matcher ic n r x _); [discriminate | exact Hk].
  - destruct fuel as [|fuel]; [lia|]. simpl.
    destruct (matcher ic n r x _) eqn:E; [discriminate|].
    exfalso. revert E. apply (IHr _ _ Mxy).
    rewrite (proj2 (Nat.ltb_lt _ _) L).
    apply IH; [reflexivity | lia | exact Hk].
Qed.

Lemma matcher_complete (r : regex) :
  forall x y, Matches ic n r x y ->
  forall k, k y <> None -> matcher ic n r x k <> None.
Proof.
  induction r as [|c|cl|r1 IH1 r2 IH2|r1 IH1 r2 IH2|r IH| |];
    intros x y M k Hk.
  - inversion M; subst. exact Hk.
  - inversion M; subst. simpl. now rewrite H0.
  - inversion M; subst. simpl. now rewrite H0.
  - inversion M; subst. simpl.
    eapply IH1; eauto.
  - simpl. inversion M; subst.
    + destruct (matcher ic n r1 x k) eqn:E; [discriminate|].
      exfalso. revert E. eapply IH1; eauto.
    + destruct (matcher ic n r1 x k) eqn:E; [discriminate|].
      eapply IH2; eauto.
  - apply (@repeatMatcher_complete r IH x y M (S (length x)) k);
      [apply Nat.lt_succ_diag_r | exact Hk].
  - inversion M; subst. simpl. now rewrite Nat.eqb_refl.
  - inversion M; subst. exact Hk.
Qed.

(** [scan] finds a match exactly when the pattern matches from some
    position on. *)
Lemma scan_sound (r : regex) (x : jsstring) (i e : nat) :
  scan ic n r x = Some (i, e) ->
  exists pre x' y,
    x = pre ++ x' /\ Matches ic n r x' y /\
    i = n - length x' /\ e = n - length y.
Proof.
  induction x as [|c x IH]; simpl; intros H.
  - destruct (matcher ic n r [] _) as [y|] eqn:E; [|discriminate].
    injection H as <- <-.
    apply matcher_sound in E as (y' & M & [= ->]).
    now exists [], [], y.
  - destruct (matcher ic n r (c :: x) _) as [y|] eqn:E.
    + injection H as <- <-.
      apply matcher_sound in E as (y' & M & [= ->]).
      now exists [], (c :: x), y.
    + destruct (IH H) as (pre & x' & y & -> & M & Hi & He).
      now exists (c :: pre), x', y.
Qed.

Lemma scan_complete (r : regex) (pre x y : jsstring) :
  Matches ic n r x y -> scan ic n r (pre ++ x) <> None.
Proof.
  intros M.
  assert (Hx : matcher ic n r x (@Some jsstring) <> None)
    by (eapply matcher_complete; eauto; discriminate).
  induction pre as [|c pre IH]; simpl.
  - destruct x; simpl;
      destruct (matcher ic n r _ _); try discriminate; contradiction.
  - destruct (matcher ic n r (c :: pre ++ x) _); [discriminate | exact IH].
Qed.

(** A match of an anchored pattern spans the input. *)
Lemma Matches_start (r : regex) (x y : jsstring) :
  Matches ic n r x y -> startAnchored r = true -> length x = n.
Proof.
  induction 1; simpl; intros A; try discriminate; auto.
  - apply andb_prop in A as [A _]. auto.
  - apply andb_prop in A as [_ A]. auto.
Qed.

Lemma Matches_end (r : regex) (x y : jsstring) :
  Matches ic n r x y -> endAnchored r = true -> y = [].
Proof.
  induction 1; simpl; intros A; try discriminate; auto.
  - apply andb_prop in A as [A _]. auto.
  - apply andb_prop in A as [_ A]. auto.
Qed.

Lemma Matches_suffix (r : regex) (x y : jsstring) :
  Matches ic n r x y -> exists w, x = w ++ y.
Proof.
  induction 1.
  - now exists [].
  - now exists [ch].
  - now exists [ch].
  - destruct IHMatches1 as [w1 ->], IHMatches2 as [w2 ->].
    exists (w1 ++ w2). now rewrite app_assoc.
  - assumption.
  - assumption.
  - now exists [].
  - destruct IHMatches1 as [w1 ->], IHMatches2 as [w2 ->].
    exists (w1 ++ w2). now rewrite app_assoc.
  - now exists [].
  - now exists [].
Qed.

End MatcherFacts.

(** ** RegExp objects *)

Section RegExpFacts.
Import JS RegExp.

(** A pattern that is not global is left as it was by [exec], and the
    search starts at index 0. *)
Lemma exec_not_global (R : RegExp) (s : jsstring) :
  global R = false ->
  RegExpBuiltinExec R s
  = (scan (ignoreCase R) (length s) (source R) s, R).
Proof.
  intros G. unfold RegExpBuiltinExec. rewrite G. simpl.
  destruct (scan _ _ _ s) as [[i e]|]; reflexivity.
Qed.

Lemma test_not_global (R : RegExp) (s : jsstring) :
  global R = false ->
  test R s = (isMatch (scan (ignoreCase R) (length s) (source R) s), R).
Proof. intros G. unfold test. now rewrite exec_not_global. Qed.

Lemma someTest_not_global (rs : list RegExp) (s : jsstring) :
  forallb (fun R => negb (global R)) rs = true ->
  someTest rs s
  = (existsb (fun R => isMatch (scan (ignoreCase R) (length s) (source R) s))
             rs, rs).
Proof.
  induction rs as [|R rs IH]; simpl; intros H; [reflexivity|].
  apply andb_prop in H as [G H]. apply negb_true_iff in G.
  rewrite test_not_global by exact G.
  destruct (isMatch _); [reflexivity|].
  now rewrite (IH H).
Qed.

Lemma isMatch_scan_iff (ic : bool) (r : regex) (s : jsstring) :
  isMatch (scan ic (length s) r s) = true <->
  exists pre x y, s = pre ++ x /\ Matches ic (length s) r x y.
Proof.
  split.
  - destruct (scan ic (length s) r s) as [[i e]|] eqn:E; [|discriminate].
    intros _. apply scan_sound in E as (pre & x & y & -> & M & _).
    now exists pre, x, y.
  - intros (pre & x & y & E & M).
    pose proof (@scan_complete ic (length s) r pre x y M) as C.
    rewrite <- E in C.
    destruct (scan ic (length s) r s); [reflexivity | contradiction].
Qed.

(** The span of a match of an anchored pattern is the whole input. *)
Lemma scan_anchored (ic : bool) (r : regex) (s : jsstring) (i e : nat) :
  startAnchored r = true -> endAnchored r = true ->
  scan ic (length s) r s = Some (i, e) -> i = 0 /\ e = length s.
Proof.
  intros A B H.
  apply scan_sound in H as (pre & x & y & _ & M & -> & ->).
  rewrite (Matches_start M A), (Matches_end M B). simpl. lia.
Qed.

Lemma anchored_full (ic : bool) (r : regex) (s : jsstring) :
  startAnchored r = true -> endAnchored r = true ->
  (isMatch (scan ic (length s) r s) = true <->
   Matches ic (length s) r s []).
Proof.
  intros A B. rewrite isMatch_scan_iff. split.
  - intros (pre & x & y & E & M).
    pose proof (Matches_start M A) as L. pose proof (Matches_end M B) as ->.
    assert (pre = []) as ->.
    { apply f_equal with (f := @length ascii) in E.
      rewrite length_app in E. destruct pre; [reflexivity | simpl in E; lia]. }
    simpl in E. now subst x.
  - intros M. now exists [], s, [].
Qed.

(** Lower-casing the input does not change what a case-blind pattern
    matches. *)
Lemma canonicalize_lower (ch : ascii) :
  canonicalize true (lowerChar ch) = canonicalize true ch.
Proof.
  assert (H : forallb (fun c => (canonicalize true (lowerChar c)
                                 =? canonicalize true c)%N) allUnits = true)
    by (vm_compute; reflexivity).
  apply N.eqb_eq. revert ch. now apply forall_units.
Qed.

Lemma caseBlind_chr (ic : bool) (c ch : ascii) :
  caseBlind ic (Chr c) = true ->
  charMatch ic c (lowerChar ch) = charMatch ic c ch.
Proof.
  intros B. cbn [caseBlind] in B. destruct ic.
  - unfold charMatch. now rewrite canonicalize_lower.
  - cbn [orb] in B.
    apply forall_units with (c := ch) in B. now apply Bool.eqb_prop in B.
Qed.

Lemma caseBlind_cls (ic : bool) (k : CharClass) (ch : ascii) :
  caseBlind ic (Cls k) = true ->
  classMatch ic k (lowerChar ch) = classMatch ic k ch.
Proof.
  intros B. cbn [caseBlind] in B. destruct ic.
  - unfold classMatch. now rewrite canonicalize_lower.
  - cbn [orb] in B.
    apply forall_units with (c := ch) in B. now apply Bool.eqb_prop in B.
Qed.

Lemma caseBlind_pair (ic : bool) (r1 r2 : regex) :
  caseBlind ic r1 && caseBlind ic r2 = true ->
  caseBlind ic r1 = true /\ caseBlind ic r2 = true.
Proof. apply andb_prop. Qed.

Lemma Matches_lower (ic : bool) (n : nat) (r : regex) (x y : jsstring) :
  caseBlind ic r = true ->
  Matches ic n r x y -> Matches ic n r (toLowerCase x) (toLowerCase y).
Proof.
  intros B M. induction M.
  - constructor.
  - simpl. constructor. now rewrite caseBlind_chr.
  - simpl. constructor. now rewrite caseBlind_cls.
  - apply caseBlind_pair in B as [B1 B2]. econstructor; eauto.
  - apply caseBlind_pair in B as [B1 B2]. apply MAltL; auto.
  - apply caseBlind_pair in B as [B1 B2]. apply MAltR; auto.
  - constructor.
  - eapply MStarS; eauto.
    now rewrite !toLowerCase_length.
  - constructor. now rewrite toLowerCase_length.
  - constructor.
Qed.

Lemma Matches_lower_inv (ic : bool) (n : nat) (r : regex) (x' y' : jsstring) :
  caseBlind ic r = true ->
  Matches ic n r x' y' ->
  forall x, x' = toLowerCase x ->
  exists y, y' = toLowerCase y /\ Matches ic n r x y.
Proof.
  intros B M. induction M; intros x0 E.
  - exists x0. split; [assumption | constructor].
  - destruct x0 as [|c0 x0]; [discriminate|]. injection E as -> ->.
    exists x0. split; [reflexivity|]. constructor.
    now rewrite <- (@caseBlind_chr ic c c0 B).
  - destruct x0 as [|c0 x0]; [discriminate|]. injection E as -> ->.
    exists x0. split; [reflexivity|]. constructor.
    now rewrite <- (@caseBlind_cls ic k c0 B).
  - apply caseBlind_pair in B as [B1 B2].
    destruct (IHM1 B1 _ E) as (w & -> & M1').
    destruct (IHM2 B2 _ eq_refl) as (z0 & -> & M2').
    exists z0. split; [reflexivity | econstructor; eauto].
  - apply caseBlind_pair in B as [B1 B2].
    destruct (IHM B1 _ E) as (w & -> & M'). exists w. split; auto.
    now apply MAltL.
  - apply caseBlind_pair in B as [B1 B2].
    destruct (IHM B2 _ E) as (w & -> & M'). exists w. split; auto.
    now apply MAltR.
  - exists x0. split; [assumption | constructor].
  - destruct (IHM1 B _ E) as (w & -> & M1').
    destruct (IHM2 B _ eq_refl) as (z0 & -> & M2').
    exists z0. split; [reflexivity|]. eapply MStarS; eauto.
    subst x. now rewrite !toLowerCase_length in H.
  - exists x0. split; [assumption|]. constructor.
    subst x. now rewrite toLowerCase_length in H.
  - destruct x0; [|discriminate]. exists []. split; [reflexivity | constructor].
Qed.

Lemma scan_lower (ic : bool) (r : regex) (s : jsstring) :
  caseBlind ic r = true ->
  isMatch (scan ic (length (toLowerCase s)) r (toLowerCase s))
  = isMatch (scan ic (length s) r s).
Proof.
  intros B. apply Bool.eq_iff_eq_true. rewrite !isMatch_scan_iff.
  rewrite toLowerCase_length. split.
  - intros (pre & x & y & E & M).
    unfold toLowerCase in E. apply map_eq_app in E as (p0 & x0 & -> & _ & Ex).
    symmetry in Ex.
    destruct (Matches_lower_inv B M x0 Ex) as (y0 & _ & M0).
    now exists p0, x0, y0.
  - intros (pre & x & y & -> & M).
    exists (toLowerCase pre), (toLowerCase x), (toLowerCase y).
    split; [apply toLowerCase_app | now apply Matches_lower].
Qed.

End RegExpFacts.

(** ** The pattern of [isTrivialChange] *)

Section DiffFacts.
Import JS RegExp DiffShape.

(** Inversion of a derivation at a known constructor. *)
Ltac inv_seq M M1 M2 :=
  inversion M as [| | |? ? ? ? ? M1 M2| | | | | |]; subst; clear M.
Ltac inv_chr M H :=
  inversion M as [|? ? ? H| | | | | | | |]; subst; clear M.
Ltac inv_cls M H :=
  inversion M as [| |? ? ? H| | | | | | |]; subst; clear M.
Ltac inv_alt M M1 :=
  inversion M as [| | | |? ? ? ? M1|? ? ? ? M1| | | |]; subst; clear M.

Lemma charMatch_exact (c ch : ascii) :
  charMatch false c ch = true <-> c = ch.
Proof.
  unfold charMatch, canonicalize, code. rewrite N.eqb_eq. split.
  - intros H. rewrite <- (ascii_N_embedding c), <- (ascii_N_embedding ch).
    now rewrite H.
  - now intros ->.
Qed.

Lemma Matches_lit (n : nat) (l x y : jsstring) :
  Matches false n (seqs (map Chr l)) x y -> x = l ++ y.
Proof.
  revert x. induction l as [|a l IH]; intros x M.
  - inversion M; subst. reflexivity.
  - destruct l as [|b l].
    + simpl in M. inv_chr M H.
      apply charMatch_exact in H. now subst.
    + change (seqs (map Chr (a :: b :: l)))
        with (Seq (Chr a) (seqs (map Chr (b :: l)))) in M.
      inv_seq M M1 M2. inv_chr M1 H.
      apply charMatch_exact in H. subst.
      simpl. f_equal. now apply IH.
Qed.

Lemma lit_Matches (n : nat) (l y : jsstring) :
  l <> [] -> Matches false n (seqs (map Chr l)) (l ++ y) y.
Proof.
  induction l as [|a l IH]; intros NE; [contradiction|].
  destruct l as [|b l].
  - simpl. constructor. now apply charMatch_exact.
  - change (seqs (map Chr (a :: b :: l)))
      with (Seq (Chr a) (seqs (map Chr (b :: l)))).
    simpl. econstructor.
    + constructor. now apply charMatch_exact.
    + apply IH. discriminate.
Qed.

Lemma Matches_star_cls (ic : bool) (n : nat) (k : CharClass) (x y : jsstring) :
  Matches ic n (Star (Cls k)) x y ->
  exists body, x = body ++ y /\ Forall (fun c => classMatch ic k c = true) body.
Proof.
  intros M. remember (Star (Cls k)) as r eqn:E.
  induction M as [| | | | | |r0 x|r0 x y z Mxy _ L Myz IH| |];
    try discriminate; injection E as ->.
  - now exists [].
  - inv_cls Mxy H.
    destruct (IH eq_refl) as (body & -> & F).
    exists (ch :: body). split; [reflexivity | now constructor].
Qed.

Lemma star_cls_Matches (ic : bool) (n : nat) (k : CharClass) (body y : jsstring) :
  Forall (fun c => classMatch ic k c = true) body ->
  Matches ic n (Star (Cls k)) (body ++ y) y.
Proof.
  induction 1 as [|c body Hc _ IH]; simpl.
  - constructor.
  - eapply MStarS; [constructor; exact Hc | simpl; lia | exact IH].
Qed.

Lemma Matches_whitespaceRun (n : nat) (x y : jsstring) :
  Matches false n CheckCommit.whitespaceRun x y ->
  exists c1 c2 b,
    x = c1 :: c2 :: b /\ isWhiteSpace c1 = true /\ isWhiteSpace c2 = true.
Proof.
  intros M. unfold CheckCommit.whitespaceRun in M. simpl seqs in M.
  inv_seq M M1 M2. inv_cls M1 H1. inv_seq M2 M3 M4. inv_cls M3 H2.
  eexists _, _, _. split; [reflexivity|]. split; assumption.
Qed.

Lemma whitespaceRun_Matches (n : nat) (c1 c2 : ascii) (b : jsstring) :
  isWhiteSpace c1 = true -> isWhiteSpace c2 = true ->
  Matches false n CheckCommit.whitespaceRun (c1 :: c2 :: b) b.
Proof.
  intros H1 H2. unfold CheckCommit.whitespaceRun. simpl.
  econstructor; [now constructor|].
  econstructor; [now constructor | constructor].
Qed.

Lemma Matches_docExt (n : nat) (x y : jsstring) :
  Matches false n (alts [lit "md"; lit "txt"; lit "rst"]) x y ->
  exists ext, x = ext ++ y /\ In ext docExtensions.
Proof.
  intros M. unfold alts in M. inv_alt M Ma.
  - apply (@Matches_lit n (str "md")) in Ma. eexists; split; [exact Ma|].
    simpl; auto.
  - inv_alt Ma Mc.
    + apply (@Matches_lit n (str "txt")) in Mc. eexists; split; [exact Mc|].
      simpl; auto.
    + apply (@Matches_lit n (str "rst")) in Mc. eexists; split; [exact Mc|].
      simpl; auto.
Qed.

Lemma Matches_docAddition (n : nat) (x y : jsstring) :
  Matches false n CheckCommit.docAddition x y ->
  length x = n /\ y = [] /\ isDocAddition x.
Proof.
  intros M.
  pose proof (Matches_start M eq_refl) as L.
  pose proof (Matches_end M eq_refl) as ->.
  split; [exact L|]. split; [reflexivity|]. clear L.
  unfold CheckCommit.docAddition in M. simpl seqs in M.
  inv_seq M Mb M1. inversion Mb; subst; clear Mb.
  inv_seq M1 Mp M2. inv_chr Mp Hp. apply charMatch_exact in Hp. subst.
  inv_seq M2 Ms M3. apply Matches_star_cls in Ms as (body & -> & F).
  inv_seq M3 Md M4. inv_chr Md Hd. apply charMatch_exact in Hd. subst.
  inv_seq M4 Me M5. inversion M5; subst; clear M5.
  apply Matches_docExt in Me as E.
  destruct E as (ext & -> & I). rewrite app_nil_r.
  exists body, ext. split; [reflexivity|]. split; [|exact I].
  eapply Forall_impl; [|exact F]. simpl. intros c Hc.
  now apply negb_true_iff in Hc.
Qed.

Lemma docAddition_Matches (d : jsstring) :
  isDocAddition d -> Matches false (length d) CheckCommit.docAddition d [].
Proof.
  intros (body & ext & -> & F & I).
  unfold CheckCommit.docAddition. simpl seqs.
  econstructor; [now constructor|].
  econstructor; [constructor; now apply charMatch_exact|].
  econstructor.
  { apply star_cls_Matches. eapply Forall_impl; [|exact F].
    simpl. intros c Hc. now rewrite Hc. }
  econstructor; [constructor; now apply charMatch_exact|].
  apply MSeq with (y := []); [|constructor].
  rewrite <- (app_nil_r ext).
  simpl in I. destruct I as [<-|[<-|[<-|[]]]].
  - apply MAltL. apply (@lit_Matches (length ("+"%char :: body ++ "."%char :: str "md" ++ [])) (str "md") []). discriminate.
  - apply MAltR, MAltL. apply (@lit_Matches (length ("+"%char :: body ++ "."%char :: str "txt" ++ [])) (str "txt") []). discriminate.
  - apply MAltR, MAltR. apply (@lit_Matches (length ("+"%char :: body ++ "."%char :: str "rst" ++ [])) (str "rst") []). discriminate.
Qed.

(** [isTrivialChange] answers with a match exactly on the two shapes. *)
Lemma isTrivialChange_iff (d : jsstring) :
  isMatch (CheckCommit.isTrivialChange d) = true <->
  hasWhitespaceRun d \/ isDocAddition d.
Proof.
  unfold CheckCommit.isTrivialChange, stringMatch.
  rewrite exec_not_global by reflexivity. simpl fst.
  rewrite isMatch_scan_iff. simpl source. split.
  - intros (pre & x & y & E & M). subst d. inv_alt M Ma.
    + left. apply Matches_whitespaceRun in Ma as (c1 & c2 & b & -> & H1 & H2).
      now exists pre, c1, c2, b.
    + right. apply Matches_docAddition in Ma as (L & _ & D).
      rewrite length_app in L.
      destruct pre; [exact D | simpl in L; lia].
  - intros [(a & c1 & c2 & b & -> & H1 & H2)|D].
    + exists a, (c1 :: c2 :: b), b. split; [reflexivity|].
      apply MAltL. now apply whitespaceRun_Matches.
    + exists [], d, []. split; [reflexivity|].
      apply MAltR. now apply docAddition_Matches.
Qed.

End DiffFacts.

(** ** The commit-message script *)

Section CommitMsgFacts.
Import JS RegExp Node CommitMsg.

(** None of the 24 literals is global; each is anchored at both ends and
    blind to case. *)
Lemma patterns_not_global :
  forallb (fun R => negb (global R)) trivialRegexPatterns = true.
Proof. reflexivity. Qed.

Lemma patterns_anchored :
  forallb (fun R => startAnchored (source R) && endAnchored (source R))
          trivialRegexPatterns = true.
Proof. reflexivity. Qed.

Lemma patterns_caseBlind :
  forallb (fun R => caseBlind (ignoreCase R) (source R)) trivialRegexPatterns
  = true.
Proof. vm_compute. reflexivity. Qed.

(** The phrases are written in lower case, and none is empty. *)
Lemma phrases_lower (p : jsstring) :
  In p trivialPatterns -> toLowerCase p = p.
Proof.
  revert p. apply Forall_forall.
  unfold trivialPatterns. repeat (constructor; [reflexivity|]). constructor.
Qed.

Lemma phrases_nonempty (p : jsstring) : In p trivialPatterns -> p <> [].
Proof.
  revert p. apply Forall_forall.
  unfold trivialPatterns. repeat (constructor; [discriminate|]). constructor.
Qed.

Lemma checks_eq (m : jsstring) :
  checks m trivialRegexPatterns
  = (mkFlags
       (some (fun p => includes (toLowerCase m) (toLowerCase p)) trivialPatterns)
       (existsb (hit (trim m)) trivialRegexPatterns)
       (length (trim m) <? 4),
     trivialRegexPatterns).
Proof.
  unfold checks. now rewrite (someTest_not_global _ _ patterns_not_global).
Qed.

Lemma flagsOf_eq (m : jsstring) :
  flagsOf m
  = mkFlags
      (some (fun p => includes (toLowerCase m) (toLowerCase p)) trivialPatterns)
      (existsb (hit (trim m)) trivialRegexPatterns)
      (length (trim m) <? 4).
Proof. unfold flagsOf. now rewrite checks_eq. Qed.

Lemma phrase_flag (m p : jsstring) :
  In p trivialPatterns -> includes (toLowerCase m) p = true ->
  isTrivialCommitMessage (flagsOf m) = true.
Proof.
  intros I H. rewrite flagsOf_eq. cbn [isTrivialCommitMessage]. unfold some.
  apply existsb_exists. exists p. split; [exact I|].
  now rewrite (phrases_lower I).
Qed.

Lemma phrase_flag_inv (m : jsstring) :
  isTrivialCommitMessage (flagsOf m) = true ->
  exists p, In p trivialPatterns /\ includes (toLowerCase m) p = true.
Proof.
  rewrite flagsOf_eq. cbn [isTrivialCommitMessage]. unfold some. intros H.
  apply existsb_exists in H as (p & I & H).
  rewrite (phrases_lower I) in H. now exists p.
Qed.

Lemma hit_test (R : RegExp) (s : jsstring) :
  In R trivialRegexPatterns -> fst (test R s) = hit s R.
Proof.
  intros I. rewrite test_not_global; [reflexivity|].
  pose proof patterns_not_global as G. rewrite forallb_forall in G.
  apply negb_true_iff. now apply G.
Qed.

Lemma hit_exec (R : RegExp) (s : jsstring) :
  In R trivialRegexPatterns ->
  fst (RegExpBuiltinExec R s) = scan (ignoreCase R) (length s) (source R) s.
Proof.
  intros I. rewrite exec_not_global; [reflexivity|].
  pose proof patterns_not_global as G. rewrite forallb_forall in G.
  apply negb_true_iff. now apply G.
Qed.

(** What [main] does once the message and the diff are there. *)
Lemma main_with (env : Env) (m d : jsstring) :
  getCommitMessage env = Ok m -> getStagedChanges env = Ok d ->
  main env =
    if negb (truthy m) then Exit 0 []
    else if blocks (flagsOf m)
         then Exit 1 [LogDetected m; LogMeaningful; LogAmend; LogHistory]
         else Exit 0 [LogOkay].
Proof.
  intros Hm Hd. unfold main. rewrite Hm, Hd. cbn [bind].
  destruct (truthy m); cbn [negb]; [|reflexivity].
  unfold blocks, flagsOf. now destruct (checks m trivialRegexPatterns).
Qed.

Lemma includes_nonempty (m p : jsstring) :
  p <> [] -> includes (toLowerCase m) p = true -> truthy m = true.
Proof.
  intros NE H. destruct m; [|reflexivity].
  simpl in H. rewrite orb_false_r in H. destruct p; [contradiction|discriminate].
Qed.

Lemma existsb_ext_in {A} (f g : A -> bool) (l : list A) :
  (forall a, In a l -> f a = g a) -> existsb f l = existsb g l.
Proof.
  induction l as [|a l IH]; simpl; intros H; [reflexivity|].
  rewrite (H a) by now left. f_equal. apply IH. intros b I. apply H. now right.
Qed.

Lemma hit_lower (s : jsstring) (R : RegExp) :
  In R trivialRegexPatterns -> hit (toLowerCase s) R = hit s R.
Proof.
  intros I. unfold hit. apply scan_lower.
  pose proof patterns_caseBlind as B. rewrite forallb_forall in B.
  now apply B.
Qed.

Lemma flagsOf_lower (m : jsstring) : flagsOf (toLowerCase m) = flagsOf m.
Proof.
  rewrite !flagsOf_eq. f_equal.
  - now rewrite toLowerCase_idem.
  - rewrite trim_lower. apply existsb_ext_in. intros R I. now apply hit_lower.
  - now rewrite trim_lower, toLowerCase_length.
Qed.

End CommitMsgFacts.

(** * The claims *)

Section Classifier.
Import JS RegExp Node CommitMsg.

Lemma classify_blocked (m : jsstring) :
  blocks (flagsOf m) = true -> classify m = Blocked.
Proof. unfold classify. now intros ->. Qed.

Lemma classify_allowed (m : jsstring) :
  blocks (flagsOf m) = false -> classify m = Allowed.
Proof. unfold classify. now intros ->. Qed.

Lemma regex_flag_false (m : jsstring) :
  (forall R, In R trivialRegexPatterns -> stringMatch (trim m) R = None) ->
  matchesTrivialRegex (flagsOf m) = false.
Proof.
  intros H. rewrite flagsOf_eq. cbn [matchesTrivialRegex].
  apply not_true_is_false. intros E.
  apply existsb_exists in E as (R & I & E).
  specialize (H R I). unfold stringMatch in H. rewrite (hit_exec _ I) in H.
  unfold hit in E. now rewrite H in E.
Qed.

Lemma phrase_flag_false (m : jsstring) :
  (forall p, In p trivialPatterns -> includes (toLowerCase m) p = false) ->
  isTrivialCommitMessage (flagsOf m) = false.
Proof.
  intros H. apply not_true_is_false. intros E.
  apply phrase_flag_inv in E as (p & I & E). now rewrite (H p I) in E.
Qed.

Lemma short_flag (m : jsstring) :
  isTooShort (flagsOf m) = (length (trim m) <? 4).
Proof. now rewrite flagsOf_eq. Qed.

Lemma short_truthy (m : jsstring) :
  4 <= length (trim m) -> truthy m = true.
Proof. destruct m; [simpl; lia | reflexivity]. Qed.

Lemma phrase_blocks (m p : jsstring) :
  In p trivialPatterns -> includes (toLowerCase m) p = true ->
  blocks (flagsOf m) = true.
Proof.
  intros I H. unfold blocks. now rewrite (phrase_flag _ I H).
Qed.

Lemma phrase_main (env : Env) (m d p : jsstring) :
  In p trivialPatterns -> includes (toLowerCase m) p = true ->
  getCommitMessage env = Ok m -> getStagedChanges env = Ok d ->
  main env = Exit 1 [LogDetected m; LogMeaningful; LogAmend; LogHistory].
Proof.
  intros I H Hm Hd. rewrite (main_with _ Hm Hd).
  rewrite (includes_nonempty _ (phrases_nonempty I) H). cbn [negb].
  now rewrite (phrase_blocks _ I H).
Qed.

End Classifier.

Import JS RegExp Node.

(** The examples of the specification, evaluated. *)
Example flags_fix_typo :
  CommitMsg.flagsOf (str "fix typo") = CommitMsg.mkFlags true true false.
Proof. vm_compute. reflexivity. Qed.

Example flags_WIP :
  CommitMsg.flagsOf (str "WIP") = CommitMsg.mkFlags true true true.
Proof. vm_compute. reflexivity. Qed.

Example flags_dot :
  CommitMsg.flagsOf (str ".") = CommitMsg.mkFlags false true true.
Proof. vm_compute. reflexivity. Qed.

Example flags_fixing_typos :
  CommitMsg.flagsOf (str "Fixing  a typos") = CommitMsg.mkFlags true true false.
Proof. vm_compute. reflexivity. Qed.

Example flags_updates :
  CommitMsg.flagsOf (str "Updates") = CommitMsg.mkFlags false true false.
Proof. vm_compute. reflexivity. Qed.

Example flags_gofmt :
  CommitMsg.flagsOf (str "Run gofmt on the tree")
  = CommitMsg.mkFlags false false false.
Proof. vm_compute. reflexivity. Qed.

Example run_okay :
  CommitMsg.main
    (Samples.hookRun (str "Add retry to the uploader
") (mkProc 0 []))
  = Exit 0 [CommitMsg.LogOkay].
Proof. vm_compute. reflexivity. Qed.

Example run_blocked :
  CommitMsg.main (Samples.hookRun (str "  Oops!  ") (mkProc 0 []))
  = Exit 1 [CommitMsg.LogDetected (str "Oops!"); CommitMsg.LogMeaningful;
            CommitMsg.LogAmend; CommitMsg.LogHistory].
Proof. vm_compute. reflexivity. Qed.

Example run_empty_message :
  CommitMsg.main (Samples.hookRun (str "   ") (mkProc 0 [])) = Exit 0 [].
Proof. vm_compute. reflexivity. Qed.

(** C1.  A message whose lower-cased text contains an entry of the phrase
    list sets [isTrivialCommitMessage] (the reason "trivial phrase") and is
    Blocked: the script, given that message, logs the error and exits with
    status 1.  In particular a message equal to an entry up to case is
    Blocked. *)
Theorem C1_trivial_phrase_blocked :
  (forall m p : jsstring,
     In p CommitMsg.trivialPatterns ->
     includes (toLowerCase m) p = true ->
     CommitMsg.isTrivialCommitMessage (CommitMsg.flagsOf m) = true /\
     CommitMsg.classify m = Blocked /\
     forall env d,
       CommitMsg.getCommitMessage env = Ok m ->
       CommitMsg.getStagedChanges env = Ok d ->
       CommitMsg.main env
       = Exit 1 [CommitMsg.LogDetected m; CommitMsg.LogMeaningful;
                 CommitMsg.LogAmend; CommitMsg.LogHistory]) /\
  (forall m p : jsstring,
     In p CommitMsg.trivialPatterns ->
     toLowerCase m = toLowerCase p ->
     CommitMsg.classify m = Blocked).
Proof.
  split.
  - intros m p I H. split; [exact (phrase_flag _ I H)|].
    split; [apply classify_blocked; eapply phrase_blocks; eauto|].
    intros env d Hm Hd. eapply phrase_main; eauto.
  - intros m p I E. apply classify_blocked, (@phrase_blocks m p I).
    rewrite E, (phrases_lower I). apply includes_refl.
Qed.

Lemma C1_witness :
  CommitMsg.classify (str "Fix typo in the README") = Blocked /\
  CommitMsg.classify (str "CleanUp") = Blocked.
Proof.
  split.
  - apply (proj1 C1_trivial_phrase_blocked
             (str "Fix typo in the README") (str "fix typo")).
    + left. reflexivity.
    + reflexivity.
  - apply (proj2 C1_trivial_phrase_blocked (str "CleanUp") (str "cleanup")).
    + unfold CommitMsg.trivialPatterns.
      repeat (first [left; reflexivity | right]).
    + reflexivity.
Defined.




(** C3.  A message that is not too short, contains no entry of the phrase
    list and is matched by no pattern of the regex list is Allowed: the
    script, given that message, logs the confirmation line and exits with
    status 0.  "Implement OAuth2 token refresh with retry and backoff" is
    such a message. *)
Theorem C3_no_rule_allowed :
  (forall m : jsstring,
     4 <= length (trim m) ->
     (forall p, In p CommitMsg.trivialPatterns ->
                includes (toLowerCase m) p = false) ->
     (forall R, In R CommitMsg.trivialRegexPatterns ->
                stringMatch (trim m) R = None) ->
     CommitMsg.classify m = Allowed /\
     forall env d,
       CommitMsg.getCommitMessage env = Ok m ->
       CommitMsg.getStagedChanges env = Ok d ->
       CommitMsg.main env = Exit 0 [CommitMsg.LogOkay]) /\
  CommitMsg.classify
    (str "Implement OAuth2 token refresh with retry and backoff") = Allowed.
Proof.
  split; [|vm_compute; reflexivity].
  intros m L P Rg.
  assert (B : CommitMsg.blocks (CommitMsg.flagsOf m) = false).
  { unfold CommitMsg.blocks.
    rewrite (phrase_flag_false _ P), (regex_flag_false _ Rg), short_flag.
    simpl. apply Nat.ltb_ge. exact L. }
  split; [now apply classify_allowed|].
  intros env d Hm Hd. rewrite (main_with _ Hm Hd).
  rewrite (short_truthy _ L). cbn [negb]. now rewrite B.
Qed.

Lemma C3_witness :
  CommitMsg.main
    (Samples.hookRun
       (str "Implement OAuth2 token refresh with retry and backoff")
       (mkProc 0 (str "+const a = 1;")))
  = Exit 0 [CommitMsg.LogOkay].
Proof.
  refine (proj2 (proj1 C3_no_rule_allowed
            (str "Implement OAuth2 token refresh with retry and backoff")
            _ _ _) _ (str "+const a = 1;") _ _).
  - vm_compute. lia.
  - apply Forall_forall. unfold CommitMsg.trivialPatterns.
    repeat (constructor; [vm_compute; reflexivity|]). constructor.
  - apply Forall_forall. unfold CommitMsg.trivialRegexPatterns.
    repeat (constructor; [vm_compute; reflexivity|]). constructor.
  - vm_compute. reflexivity.
  - vm_compute. reflexivity.
Defined.

Section AsciiCase.
Import MessageShape.

Lemma lowerChar_fold (c : ascii) : lowerChar (foldAscii c) = lowerChar c.
Proof.
  apply Ascii.eqb_eq. revert c. apply forall_units. vm_compute. reflexivity.
Qed.

Lemma sameCase_lower (m m' : jsstring) :
  sameUpToAsciiCase m m' -> toLowerCase m = toLowerCase m'.
Proof.
  assert (A : forall s, toLowerCase s = toLowerCase (map foldAscii s)).
  { intros s. unfold toLowerCase. rewrite map_map.
    apply map_ext. intros c. symmetry. apply lowerChar_fold. }
  unfold sameUpToAsciiCase. intros H. now rewrite (A m), (A m'), H.
Qed.

End AsciiCase.

(** C4, as the specification has it, fails: the pattern of
    [isTrivialChange], which decides with the message in
    scripts/check-commit.js, has no i flag; it matches "+x.md" and not
    "+x.MD". *)
Lemma C4_counterexample :
  ~ (forall d d' : jsstring,
       toLowerCase d = toLowerCase d' ->
       isMatch (CheckCommit.isTrivialChange d)
       = isMatch (CheckCommit.isTrivialChange d')).
Proof.
  intros H. specialize (H (str "+x.md") (str "+x.MD") eq_refl).
  vm_compute in H. discriminate.
Qed.

(** C4, amended.  The rules on the message do not see the case of the
    letters A-Z: two messages that differ in the case of such letters only
    get the same three flags.  The phrase rule finds a phrase anywhere in
    the message.  A pattern of the regex list matches only from index 0 to
    the end of the text it is tested on, so the regex rule fires exactly
    when some pattern matches the whole trimmed message.  The pattern of
    [isTrivialChange] does see case: on a text without a white-space run it
    matches exactly the one-line additions that end in ".md", ".txt" or
    ".rst" written so. *)
Theorem C4_matching_modes_amended :
  (forall m m' : jsstring,
     MessageShape.sameUpToAsciiCase m m' ->
     CommitMsg.flagsOf m = CommitMsg.flagsOf m') /\
  (forall a p b : jsstring,
     In p CommitMsg.trivialPatterns ->
     CommitMsg.isTrivialCommitMessage (CommitMsg.flagsOf (a ++ p ++ b)) = true) /\
  (forall R s i e,
     In R CommitMsg.trivialRegexPatterns ->
     stringMatch s R = Some (i, e) -> i = 0 /\ e = length s) /\
  (forall m : jsstring,
     CommitMsg.matchesTrivialRegex (CommitMsg.flagsOf m) = true <->
     exists R, In R CommitMsg.trivialRegexPatterns /\
               stringMatch (trim m) R = Some (0, length (trim m))) /\
  (forall d : jsstring,
     ~ DiffShape.hasWhitespaceRun d ->
     (isMatch (CheckCommit.isTrivialChange d) = true <->
      DiffShape.isDocAddition d)) /\
  (isMatch (CheckCommit.isTrivialChange (str "+x.md")) = true /\
   isMatch (CheckCommit.isTrivialChange (str "+x.MD")) = false).
Proof.
  assert (A : forall R s i e,
     In R CommitMsg.trivialRegexPatterns ->
     stringMatch s R = Some (i, e) -> i = 0 /\ e = length s).
  { intros R s i e I H. unfold stringMatch in H. rewrite (hit_exec _ I) in H.
    pose proof patterns_anchored as P. rewrite forallb_forall in P.
    apply P in I. apply andb_prop in I as [I1 I2].
    eapply scan_anchored; eassumption. }
  split; [|split; [|split; [|split; [|split]]]].
  - intros m m' E. apply sameCase_lower in E.
    now rewrite <- (flagsOf_lower m), <- (flagsOf_lower m'), E.
  - intros a p b I. apply (phrase_flag _ I).
    rewrite !toLowerCase_app, (phrases_lower I). apply includes_app.
  - exact A.
  - intros m. rewrite flagsOf_eq. cbn [CommitMsg.matchesTrivialRegex].
    rewrite existsb_exists. split.
    + intros (R & I & H). exists R. split; [exact I|].
      unfold hit in H.
      destruct (scan _ _ _ (trim m)) as [[i e]|] eqn:E; [|discriminate].
      assert (S : stringMatch (trim m) R = Some (i, e))
        by (unfold stringMatch; now rewrite (hit_exec _ I)).
      destruct (A _ _ _ _ I S) as [-> ->]. exact S.
    + intros (R & I & H). exists R. split; [exact I|].
      unfold stringMatch in H. rewrite (hit_exec _ I) in H.
      unfold hit. now rewrite H.
  - intros d N. rewrite isTrivialChange_iff. tauto.
  - split; vm_compute; reflexivity.
Qed.

Lemma C4_witness :
  CommitMsg.flagsOf (str "MINOR Update") = CommitMsg.flagsOf (str "minor update")
  /\ CommitMsg.isTrivialCommitMessage
       (CommitMsg.flagsOf (str "Parser: " ++ str "fix typo" ++ str " in docs"))
     = true
  /\ (0 = 0 /\ 3 = length (str "fmt")).
Proof.
  destruct C4_matching_modes_amended as (H1 & H2 & H3 & _).
  split; [|split].
  - apply H1. reflexivity.
  - apply H2. left. reflexivity.
  - apply (H3 (literal (seqs [Bol; lit "fmt"; Eol]) true) (str "fmt")).
    + unfold CommitMsg.trivialRegexPatterns.
      repeat (first [left; reflexivity | right]).
    + reflexivity.
Defined.

Section Variants.
Import DiffShape.

Lemma phrases_included (p : jsstring) :
  In p CheckCommit.trivialPatterns -> In p CommitMsg.trivialPatterns.
Proof.
  revert p. apply Forall_forall. unfold CheckCommit.trivialPatterns.
  repeat (constructor;
          [unfold CommitMsg.trivialPatterns;
           repeat (first [left; reflexivity | right])|]).
  constructor.
Qed.

Lemma checkCommit_main_with (env : Env) (m d : jsstring) :
  CheckCommit.getLastCommitMessage env = Ok m ->
  CheckCommit.getStagedChanges env = Ok d ->
  CheckCommit.main env =
    if CheckCommit.isTrivialCommitMessage m
       && isMatch (CheckCommit.isTrivialChange d)
    then Exit 1 [CheckCommit.LogError; CheckCommit.LogAmend]
    else Exit 0 [CheckCommit.LogOkay].
Proof. intros Hm Hd. unfold CheckCommit.main. now rewrite Hm, Hd. Qed.

Lemma not_trivial_change (d : jsstring) :
  ~ hasWhitespaceRun d -> ~ isDocAddition d ->
  isMatch (CheckCommit.isTrivialChange d) = false.
Proof.
  intros W D. apply not_true_is_false. intros H.
  apply isTrivialChange_iff in H as [H|H]; contradiction.
Qed.

Lemma no_match_shapes (d : jsstring) :
  isMatch (CheckCommit.isTrivialChange d) = false ->
  ~ hasWhitespaceRun d /\ ~ isDocAddition d.
Proof.
  intros H. split; intros C;
    assert (T : isMatch (CheckCommit.isTrivialChange d) = true)
      by (apply isTrivialChange_iff; auto);
    rewrite H in T; discriminate.
Qed.

Lemma docAddition_only (d : jsstring) :
  stringMatch d (literal CheckCommit.docAddition false) <> None ->
  isDocAddition d.
Proof.
  unfold stringMatch. rewrite exec_not_global by reflexivity.
  cbn [fst literal source ignoreCase]. intros H.
  destruct (scan false (length d) CheckCommit.docAddition d) as [[i e]|] eqn:E;
    [|contradiction].
  apply scan_sound in E as (pre & x & y & -> & M & _).
  apply Matches_docAddition in M as (L & _ & D).
  rewrite length_app in L. destruct pre; [exact D | simpl in L; lia].
Qed.

Lemma execSync_Ok (p : ProcResult) :
  status p = 0%N -> (outputBytes p <= maxBuffer)%N ->
  execSync p = Ok (stdout p).
Proof.
  unfold execSync. intros -> H. apply N.leb_le in H. now rewrite H.
Qed.

Lemma execSync_Throw (p : ProcResult) :
  status p <> 0%N -> execSync p = Throw.
Proof.
  unfold execSync. intros H. apply N.eqb_neq in H. now rewrite H.
Qed.

Lemma execSync_overflow (p : ProcResult) :
  (maxBuffer < outputBytes p)%N -> execSync p = Throw.
Proof.
  unfold execSync. intros H. apply N.leb_gt in H. rewrite H.
  now rewrite andb_false_r.
Qed.

Lemma utf8Length_ge (s : jsstring) : (N.of_nat (length s) <= utf8Length s)%N.
Proof.
  induction s as [|c s IH]; [reflexivity|].
  cbn [utf8Length fold_right length]. fold (utf8Length s).
  destruct (code c <? 128)%N; lia.
Qed.

(** A text of more than [maxBuffer] code units on the standard output is
    enough for ENOBUFS. *)
Lemma execSync_long_output (p : ProcResult) :
  (maxBuffer < N.of_nat (length (stdout p)))%N -> execSync p = Throw.
Proof.
  intros H. apply execSync_overflow. unfold outputBytes.
  pose proof (utf8Length_ge (stdout p)). lia.
Qed.

Lemma execSync_Ok_iff (p : ProcResult) (out : jsstring) :
  execSync p = Ok out <->
  status p = 0%N /\ (outputBytes p <= maxBuffer)%N /\ out = stdout p.
Proof.
  unfold execSync. split.
  - destruct (status p =? 0)%N eqn:S; [|discriminate].
    destruct (outputBytes p <=? maxBuffer)%N eqn:B; [|discriminate].
    intros [= <-]. apply N.eqb_eq in S. apply N.leb_le in B. now repeat split.
  - intros (S & B & ->). apply N.eqb_eq in S. apply N.leb_le in B.
    now rewrite S, B.
Qed.

End Variants.

Import DiffShape.

(** C7.  Take a message that contains a phrase of the list of
    scripts/check-commit.js (a phrase of both lists) and a staged diff with
    no two white-space code units in a row that is not a one-line addition
    of a documentation path.  scripts/check-commit.js, which asks the diff to
    look trivial too, lets it pass: confirmation line, status 0.  The
    commit-message script, which never looks at the diff, blocks it: error
    lines, status 1. *)
Theorem C7_diff_corroboration :
  forall (env1 env2 : Env) (m d p : jsstring),
    In p CheckCommit.trivialPatterns ->
    includes (toLowerCase m) p = true ->
    ~ hasWhitespaceRun d -> ~ isDocAddition d ->
    (CheckCommit.getLastCommitMessage env1 = Ok m ->
     CheckCommit.getStagedChanges env1 = Ok d ->
     CheckCommit.isTrivialCommitMessage m = true /\
     CheckCommit.main env1 = Exit 0 [CheckCommit.LogOkay]) /\
    (CommitMsg.getCommitMessage env2 = Ok m ->
     CommitMsg.getStagedChanges env2 = Ok d ->
     CommitMsg.main env2
     = Exit 1 [CommitMsg.LogDetected m; CommitMsg.LogMeaningful;
               CommitMsg.LogAmend; CommitMsg.LogHistory]).
Proof.
  intros env1 env2 m d p I H W D. split.
  - intros Hm Hd. split.
    + unfold CheckCommit.isTrivialCommitMessage, some.
      apply existsb_exists. now exists p.
    + rewrite (checkCommit_main_with _ Hm Hd), (not_trivial_change W D).
      now rewrite andb_false_r.
  - intros Hm Hd.
    eapply phrase_main; eauto using phrases_included.
Qed.

Lemma C7_witness :
  CheckCommit.main
    (Samples.preCommitRun (str "Fix typo in parser") (str "+const a = 1;"))
  = Exit 0 [CheckCommit.LogOkay]
  /\
  CommitMsg.main
    (Samples.hookRun (str "Fix typo in parser") (mkProc 0 (str "+const a = 1;")))
  = Exit 1 [CommitMsg.LogDetected (str "Fix typo in parser");
            CommitMsg.LogMeaningful; CommitMsg.LogAmend; CommitMsg.LogHistory].
Proof.
  assert (N : ~ hasWhitespaceRun (str "+const a = 1;")
              /\ ~ isDocAddition (str "+const a = 1;"))
    by (apply no_match_shapes; vm_compute; reflexivity).
  destruct (@C7_diff_corroboration
              (Samples.preCommitRun (str "Fix typo in parser")
                                    (str "+const a = 1;"))
              (Samples.hookRun (str "Fix typo in parser")
                               (mkProc 0 (str "+const a = 1;")))
              (str "Fix typo in parser") (str "+const a = 1;")
              (str "fix typo")) as [V1 V2].
  - left. reflexivity.
  - reflexivity.
  - exact (proj1 N).
  - exact (proj2 N).
  - split.
    + apply V1; reflexivity.
    + apply V2; reflexivity.
Defined.

(** C8.  Computing the three flags leaves the array of RegExp objects as it
    was (no pattern is global, so no [lastIndex] moves), hence the flags of
    a message are the same after any number of earlier classifications; the
    pattern of [isTrivialChange] is left as it was too. *)
Theorem C8_classification_pure :
  (forall m : jsstring,
     snd (CommitMsg.checks m CommitMsg.trivialRegexPatterns)
     = CommitMsg.trivialRegexPatterns) /\
  (forall (earlier : list jsstring) (m : jsstring),
     fst (CommitMsg.checks m
            (fold_left (fun regexes m' => snd (CommitMsg.checks m' regexes))
                       earlier CommitMsg.trivialRegexPatterns))
     = CommitMsg.flagsOf m) /\
  (forall d : jsstring,
     let R := literal (Alt CheckCommit.whitespaceRun CheckCommit.docAddition)
                      false in
     RegExpBuiltinExec R d = (CheckCommit.isTrivialChange d, R)).
Proof.
  split; [|split].
  - intros m. now rewrite checks_eq.
  - intros earlier m.
    assert (E : fold_left (fun regexes m' => snd (CommitMsg.checks m' regexes))
                  earlier CommitMsg.trivialRegexPatterns
                = CommitMsg.trivialRegexPatterns).
    { induction earlier as [|m0 earlier IH]; [reflexivity|].
      cbn [fold_left]. now rewrite checks_eq. }
    now rewrite E.
  - intros d R. unfold CheckCommit.isTrivialChange, stringMatch. fold R.
    now rewrite (@exec_not_global R d eq_refl).
Qed.

(** C9.  [isTrivialChange] answers with a match on every text that has two
    white-space code units in a row, a line feed followed by a space for
    one, as in a diff of several lines with a context line.  The alternative
    for documentation files matches only a text that is one line as a whole,
    a [+] in front and [.md], [.txt] or [.rst] at the end; a match on a text
    without a white-space run is such a text. *)
Theorem C9_isTrivialChange_shapes :
  (forall (a b : jsstring) (c1 c2 : ascii),
     isWhiteSpace c1 = true -> isWhiteSpace c2 = true ->
     isMatch (CheckCommit.isTrivialChange (a ++ c1 :: c2 :: b)) = true) /\
  (forall a b : jsstring,
     isMatch (CheckCommit.isTrivialChange
                (a ++ ascii_of_nat 10 :: " "%char :: b)) = true) /\
  (forall d : jsstring,
     stringMatch d (literal CheckCommit.docAddition false) <> None ->
     isDocAddition d) /\
  (forall d : jsstring,
     isMatch (CheckCommit.isTrivialChange d) = true ->
     ~ hasWhitespaceRun d -> isDocAddition d).
Proof.
  assert (W : forall (a b : jsstring) (c1 c2 : ascii),
     isWhiteSpace c1 = true -> isWhiteSpace c2 = true ->
     isMatch (CheckCommit.isTrivialChange (a ++ c1 :: c2 :: b)) = true).
  { intros a b c1 c2 H1 H2. apply isTrivialChange_iff. left.
    now exists a, c1, c2, b. }
  split; [exact W | split; [|split]].
  - intros a b. now apply W.
  - exact docAddition_only.
  - intros d H N. apply isTrivialChange_iff in H as [H|H];
      [contradiction | exact H].
Qed.

Lemma C9_witness :
  isMatch (CheckCommit.isTrivialChange
             (str "@@ -1 +1 @@" ++ ascii_of_nat 10 :: " "%char
                  :: str "context line")) = true
  /\ isDocAddition (str "+docs/guide.md").
Proof.
  destruct C9_isTrivialChange_shapes as (H1 & _ & H3 & _).
  split.
  - apply H1; reflexivity.
  - apply H3. vm_compute. discriminate.
Defined.

(** The model does see such state: a pattern with the g flag answers
    differently the second time. *)
Remark global_pattern_is_stateful :
  test Samples.globalA (str "a") = (true, setLastIndex Samples.globalA 1) /\
  fst (test (snd (test Samples.globalA (str "a"))) (str "a")) = false.
Proof. split; reflexivity. Qed.

Section Runs.

(** How a run of the commit-message script can end. *)
Lemma commitMsg_uncaught (env : Env) :
  CommitMsg.main env = Uncaught <->
  CommitMsg.getCommitMessage env = Throw \/
  execSync (gitDiffCached env) = Throw.
Proof.
  unfold CommitMsg.main, CommitMsg.getStagedChanges.
  destruct (CommitMsg.getCommitMessage env) as [m|]; cbn [bind].
  - destruct (execSync (gitDiffCached env)) as [d|]; cbn [bind].
    + split; [|intros [H|H]; discriminate].
      destruct (negb (truthy m)); [discriminate|].
      destruct (CommitMsg.checks m CommitMsg.trivialRegexPatterns) as [f ?].
      destruct (_ || _ || _); discriminate.
    + split; auto.
  - split; auto.
Qed.

Lemma commitMsg_exit1 (env : Env) (out : list CommitMsg.Line) :
  CommitMsg.main env = Exit 1 out ->
  exists m, CommitMsg.getCommitMessage env = Ok m /\ m <> [] /\
            CommitMsg.classify m = Blocked.
Proof.
  intros H.
  destruct (CommitMsg.getCommitMessage env) as [m|] eqn:Hm;
    [|unfold CommitMsg.main in H; rewrite Hm in H; discriminate].
  destruct (CommitMsg.getStagedChanges env) as [d|] eqn:Hd;
    [|unfold CommitMsg.main in H; rewrite Hm, Hd in H; discriminate].
  rewrite (main_with _ Hm Hd) in H.
  destruct m as [|c m]; cbn [truthy negb] in H; [discriminate|].
  destruct (CommitMsg.blocks (CommitMsg.flagsOf (c :: m))) eqn:B;
    [|discriminate].
  exists (c :: m). split; [reflexivity|].
  split; [discriminate | now apply classify_blocked].
Qed.

Lemma commitMsg_skip (env : Env) (d : jsstring) :
  CommitMsg.getCommitMessage env = Ok [] ->
  CommitMsg.getStagedChanges env = Ok d ->
  CommitMsg.main env = Exit 0 [].
Proof.
  intros Hm Hd. unfold CommitMsg.main. now rewrite Hm, Hd.
Qed.

Lemma execSync_Throw_iff (p : ProcResult) :
  execSync p = Throw <->
  status p <> 0%N \/ (maxBuffer < outputBytes p)%N.
Proof.
  unfold execSync.
  destruct (status p =? 0)%N eqn:S; destruct (outputBytes p <=? maxBuffer)%N eqn:B;
    cbn [andb].
  - apply N.eqb_eq in S. apply N.leb_le in B.
    split; [discriminate|]. intros [H|H]; [contradiction | lia].
  - apply N.leb_gt in B. split; auto.
  - apply N.eqb_neq in S. split; auto.
  - apply N.eqb_neq in S. split; auto.
Qed.

Lemma getCommitMessage_Throw_iff (env : Env) :
  CommitMsg.getCommitMessage env = Throw <->
  exists path, argv2 env = Some path /\ path <> [] /\
               fsEntry env path = NotReadable.
Proof.
  unfold CommitMsg.getCommitMessage. split.
  - destruct (argv2 env) as [path|]; [|discriminate].
    destruct path as [|c path]; [discriminate|]. cbn [truthy andb].
    destruct (fsEntry env (c :: path)) eqn:F; cbn; try discriminate.
    intros _. exists (c :: path). split; [reflexivity|].
    split; [discriminate | exact F].
  - intros (path & -> & NE & F). destruct path; [contradiction|].
    now rewrite F.
Qed.

Lemma commitMsg_diff_throws (env : Env) :
  status (gitDiffCached env) <> 0%N -> CommitMsg.main env = Uncaught.
Proof.
  intros H. apply commitMsg_uncaught. right. now apply execSync_Throw.
Qed.

Lemma checkCommit_uncaught (env : Env) :
  CheckCommit.main env = Uncaught <->
  execSync (gitLog env) = Throw \/ execSync (gitDiffCached env) = Throw.
Proof.
  unfold CheckCommit.main, CheckCommit.getLastCommitMessage,
    CheckCommit.getStagedChanges.
  destruct (execSync (gitLog env)) as [m|]; cbn [bind].
  - destruct (execSync (gitDiffCached env)) as [d|]; cbn [bind].
    + split; [|intros [H|H]; discriminate].
      destruct (_ && _); discriminate.
    + split; auto.
  - split; auto.
Qed.

Lemma checkCommit_exit1 (env : Env) (out : list CheckCommit.Line) :
  CheckCommit.main env = Exit 1 out ->
  exists m d,
    CheckCommit.getLastCommitMessage env = Ok m /\
    CheckCommit.getStagedChanges env = Ok d /\
    CheckCommit.isTrivialCommitMessage m = true /\
    isMatch (CheckCommit.isTrivialChange d) = true.
Proof.
  unfold CheckCommit.main.
  destruct (CheckCommit.getLastCommitMessage env) as [m|]; cbn [bind];
    [|discriminate].
  destruct (CheckCommit.getStagedChanges env) as [d|]; cbn [bind];
    [|discriminate].
  destruct (CheckCommit.isTrivialCommitMessage m) eqn:A;
    destruct (isMatch (CheckCommit.isTrivialChange d)) eqn:B;
    cbn [andb]; try discriminate.
  intros _. now exists m, d.
Qed.

Lemma no_argument (env : Env) :
  argv2 env = None -> CommitMsg.getCommitMessage env = Ok [].
Proof. unfold CommitMsg.getCommitMessage. now intros ->. Qed.

Lemma missing_file (env : Env) (path : jsstring) :
  argv2 env = Some path -> existsSync (fsEntry env path) = false ->
  CommitMsg.getCommitMessage env = Ok [].
Proof.
  unfold CommitMsg.getCommitMessage. intros -> ->.
  now rewrite andb_false_r.
Qed.

End Runs.

(** C5, as the specification has it, fails: a run in which the message is
    unavailable and [git diff --cached] fails does not end with status 0. *)
Lemma C5_counterexample :
  ~ (forall env : Env,
       CommitMsg.getCommitMessage env = Ok [] \/
       execSync (gitDiffCached env) = Throw ->
       exitStatus (CommitMsg.main env) = 0%N).
Proof.
  intros H. specialize (H Samples.diffFails (or_introl eq_refl)).
  vm_compute in H. discriminate.
Qed.

(** C5, amended.  When the message is unavailable and the [execSync] call
    for [git diff --cached] returns, the commit-message script exits with
    status 0 and logs nothing.  [process.exit(1)] is reached only on a
    verdict: in the commit-message script for a message that is not empty
    and is Blocked, in scripts/check-commit.js for a trivial message with a
    trivial diff.  Nothing catches an exception: a run ends with one exactly
    when [execSync] throws for a git command, which it does when the command
    ends with a status other than 0 or prints more than [maxBuffer] bytes,
    or when the message file is there and cannot be read. *)
Theorem C5_fail_open_amended :
  forall env : Env,
    (forall d,
       CommitMsg.getCommitMessage env = Ok [] ->
       CommitMsg.getStagedChanges env = Ok d ->
       CommitMsg.main env = Exit 0 []) /\
    (forall out, CommitMsg.main env = Exit 1 out ->
       exists m, CommitMsg.getCommitMessage env = Ok m /\ m <> [] /\
                 CommitMsg.classify m = Blocked) /\
    (forall out, CheckCommit.main env = Exit 1 out ->
       exists m d,
         CheckCommit.getLastCommitMessage env = Ok m /\
         CheckCommit.getStagedChanges env = Ok d /\
         CheckCommit.isTrivialCommitMessage m = true /\
         isMatch (CheckCommit.isTrivialChange d) = true) /\
    (CommitMsg.main env = Uncaught <->
     CommitMsg.getCommitMessage env = Throw \/
     execSync (gitDiffCached env) = Throw) /\
    (CheckCommit.main env = Uncaught <->
     execSync (gitLog env) = Throw \/ execSync (gitDiffCached env) = Throw) /\
    (forall p : ProcResult,
       execSync p = Throw <->
       status p <> 0%N \/ (maxBuffer < outputBytes p)%N) /\
    (CommitMsg.getCommitMessage env = Throw <->
     exists path, argv2 env = Some path /\ path <> [] /\
                  fsEntry env path = NotReadable).
Proof.
  intros env. repeat split.
  - intros d. apply commitMsg_skip.
  - apply commitMsg_exit1.
  - apply checkCommit_exit1.
  - apply commitMsg_uncaught.
  - apply commitMsg_uncaught.
  - apply checkCommit_uncaught.
  - apply checkCommit_uncaught.
  - apply execSync_Throw_iff.
  - apply execSync_Throw_iff.
  - apply getCommitMessage_Throw_iff.
  - apply getCommitMessage_Throw_iff.
Qed.

Lemma C5_witness :
  CommitMsg.main Samples.missingFile = Exit 0 [] /\
  execSync (gitDiffCached Samples.diffTooBig) = Throw.
Proof.
  destruct (C5_fail_open_amended Samples.missingFile)
    as (H1 & _ & _ & _ & _ & H6 & _).
  split.
  - apply (H1 []); reflexivity.
  - apply H6. right. reflexivity.
Defined.

(** C6, as the specification has it, fails: scripts/check-commit.js, the
    script that reads the last commit message, run without argument in a
    repository with no commit, throws in [getLastCommitMessage] and does not
    end with status 0. *)
Lemma C6_counterexample :
  ~ (forall env : Env,
       argv2 env = None -> status (gitLog env) = 128%N ->
       CheckCommit.getLastCommitMessage env = Ok [] /\
       exitStatus (CheckCommit.main env) = 0%N).
Proof.
  intros H. destruct (H Samples.zeroCommits eq_refl eq_refl) as [H1 _].
  vm_compute in H1. discriminate.
Qed.

(** C6, amended.  Without a path argument the commit-message script takes
    the message to be empty, without asking git for the last commit, and when
    the [execSync] call for [git diff --cached] returns it exits with status
    0 and logs nothing, whatever [git log] would do.  scripts/check-commit.js
    takes the trimmed text [execSync] returns for [git log], and does not
    catch the exception when [execSync] throws, as it does when [git log]
    ends with a status other than 0. *)
Theorem C6_no_argument_amended :
  forall env : Env,
    (forall d,
       argv2 env = None ->
       CommitMsg.getStagedChanges env = Ok d ->
       CommitMsg.getCommitMessage env = Ok [] /\
       CommitMsg.main env = Exit 0 []) /\
    (forall out,
       execSync (gitLog env) = Ok out ->
       CheckCommit.getLastCommitMessage env = Ok (trim out)) /\
    (execSync (gitLog env) = Throw ->
     CheckCommit.getLastCommitMessage env = Throw /\
     CheckCommit.main env = Uncaught) /\
    (status (gitLog env) <> 0%N -> execSync (gitLog env) = Throw).
Proof.
  intros env. split; [|split; [|split]].
  - intros d A D. pose proof (no_argument _ A) as E.
    split; [exact E | exact (@commitMsg_skip env d E D)].
  - intros out L. unfold CheckCommit.getLastCommitMessage. now rewrite L.
  - intros L. split.
    + unfold CheckCommit.getLastCommitMessage. now rewrite L.
    + apply checkCommit_uncaught. now left.
  - apply execSync_Throw.
Qed.

Lemma C6_witness :
  (CommitMsg.getCommitMessage Samples.zeroCommits = Ok [] /\
   CommitMsg.main Samples.zeroCommits = Exit 0 []) /\
  CheckCommit.main Samples.zeroCommits = Uncaught.
Proof.
  destruct (C6_no_argument_amended Samples.zeroCommits) as (H1 & _ & H3 & H4).
  split.
  - apply (H1 []); reflexivity.
  - apply H3, H4. discriminate.
Defined.

(** C10, as written, fails: when the argument names no file and
    [git diff --cached] fails, the run does not end with status 0. *)
Lemma C10_counterexample :
  ~ (forall (env : Env) (path : jsstring),
       argv2 env = Some path -> existsSync (fsEntry env path) = false ->
       exitStatus (CommitMsg.main env) = 0%N).
Proof.
  intros H.
  specialize (H Samples.missingFileDiffFails Samples.msgFile eq_refl eq_refl).
  vm_compute in H. discriminate.
Qed.

(** C10, amended.  When the argument names a file that does not exist and
    the [execSync] call for [git diff --cached] returns, the commit-message
    script takes the message to be empty: it exits with status 0 and logs
    nothing, neither a verdict nor an error. *)
Theorem C10_missing_file_amended :
  forall (env : Env) (path d : jsstring),
    argv2 env = Some path ->
    existsSync (fsEntry env path) = false ->
    CommitMsg.getStagedChanges env = Ok d ->
    CommitMsg.getCommitMessage env = Ok [] /\
    CommitMsg.main env = Exit 0 [] /\
    exitStatus (CommitMsg.main env) = 0%N.
Proof.
  intros env path d A N D.
  pose proof (missing_file _ A N) as E.
  pose proof (@commitMsg_skip env d E D) as M.
  rewrite M. now repeat split.
Qed.

Lemma C10_witness :
  CommitMsg.getCommitMessage Samples.missingFile = Ok [] /\
  CommitMsg.main Samples.missingFile = Exit 0 [] /\
  exitStatus (CommitMsg.main Samples.missingFile) = 0%N.
Proof.
  apply (@C10_missing_file_amended Samples.missingFile Samples.msgFile []);
    reflexivity.
Defined.

(** * Further properties of the scripts *)

Unset Implicit Arguments.

(** ** Trimming *)

Section TrimFacts.
Import MessageShape.

Lemma trimStart_idem (s : jsstring) : trimStart (trimStart s) = trimStart s.
Proof.
  induction s as [|c s IH]; simpl; [reflexivity|].
  destruct (isWhiteSpace c) eqn:E; [exact IH|]. simpl. now rewrite E.
Qed.

Lemma trimStart_nil_iff (s : jsstring) :
  trimStart s = [] <-> allWhiteSpace s = true.
Proof.
  unfold allWhiteSpace. induction s as [|c s IH]; simpl; [tauto|].
  destruct (isWhiteSpace c); simpl; [exact IH|].
  split; discriminate.
Qed.

Lemma trimStart_head (s : jsstring) (c : ascii) (t : jsstring) :
  trimStart s = c :: t -> isWhiteSpace c = false.
Proof.
  induction s as [|a s IH]; simpl; [discriminate|].
  destruct (isWhiteSpace a) eqn:E; [exact IH|].
  now intros [= <- _].
Qed.

Lemma trimStart_app (a b : jsstring) :
  trimStart (a ++ b)
  = match trimStart a with [] => trimStart b | _ :: _ => trimStart a ++ b end.
Proof.
  induction a as [|c a IH]; simpl; [reflexivity|].
  destruct (isWhiteSpace c); [exact IH | reflexivity].
Qed.

Lemma trimEnd_cons (c : ascii) (s : jsstring) :
  trimEnd (c :: s)
  = match trimEnd s with
    | [] => if isWhiteSpace c then [] else [c]
    | _ :: _ => c :: trimEnd s
    end.
Proof.
  unfold trimEnd. simpl rev. rewrite trimStart_app.
  destruct (trimStart (rev s)) as [|a l] eqn:E.
  - simpl. now destruct (isWhiteSpace c).
  - rewrite rev_app_distr. change (rev [c]) with [c].
    destruct (rev (a :: l)) eqn:R; [|reflexivity].
    apply f_equal with (f := @length ascii) in R.
    rewrite length_rev in R. discriminate.
Qed.

Lemma trimEnd_idem (s : jsstring) : trimEnd (trimEnd s) = trimEnd s.
Proof.
  unfold trimEnd. now rewrite rev_involutive, trimStart_idem.
Qed.

Lemma trimEnd_keeps_head (c : ascii) (s : jsstring) :
  isWhiteSpace c = false -> exists t, trimEnd (c :: s) = c :: t.
Proof.
  intros E. rewrite trimEnd_cons, E.
  destruct (trimEnd s); eauto.
Qed.

Lemma trim_idem (s : jsstring) : trim (trim s) = trim s.
Proof.
  unfold trim. destruct (trimStart s) as [|c t] eqn:E; [reflexivity|].
  pose proof (trimStart_head s c t E) as W.
  destruct (trimEnd_keeps_head c t W) as [u U].
  rewrite U. simpl trimStart at 1.
  rewrite W, <- U. apply trimEnd_idem.
Qed.

Lemma trim_nil_iff (s : jsstring) : trim s = [] <-> allWhiteSpace s = true.
Proof.
  rewrite <- trimStart_nil_iff. unfold trim. split.
  - destruct (trimStart s) as [|c t] eqn:E; [reflexivity|].
    destruct (trimEnd_keeps_head c t (trimStart_head s c t E)) as [u ->].
    discriminate.
  - now intros ->.
Qed.

Lemma trim_length (s : jsstring) : length (trim s) <= length s.
Proof.
  assert (A : forall t, length (trimStart t) <= length t).
  { induction t as [|c t IH]; simpl; [lia|].
    destruct (isWhiteSpace c); simpl; lia. }
  unfold trim, trimEnd. rewrite length_rev.
  etransitivity; [apply A|]. rewrite length_rev. apply A.
Qed.

End TrimFacts.

(** ** What the scripts read *)

Section Sources.
Import MessageShape.

Lemma includes_context (a s b p : jsstring) :
  includes s p = true -> includes (a ++ s ++ b) p = true.
Proof.
  intros H. apply includes_inv in H as (u & v & ->).
  replace (a ++ (u ++ p ++ v) ++ b) with ((a ++ u) ++ p ++ (v ++ b))
    by (now rewrite <- !app_assoc).
  apply includes_app.
Qed.

Lemma includes_trans (s p q : jsstring) :
  includes s p = true -> includes p q = true -> includes s q = true.
Proof.
  intros H1 H2. apply includes_inv in H1 as (u & v & ->).
  now apply includes_context.
Qed.

Lemma includes_rev (s p : jsstring) :
  includes (rev s) (rev p) = includes s p.
Proof.
  assert (A : forall s p, includes s p = true ->
                          includes (rev s) (rev p) = true).
  { intros s0 p0 H. apply includes_inv in H as (u & v & ->).
    rewrite !rev_app_distr, <- app_assoc. apply includes_app. }
  apply Bool.eq_iff_eq_true. split; [|apply A].
  intros H. apply A in H. now rewrite !rev_involutive in H.
Qed.

Lemma includes_trimStart (s p : jsstring) (c : ascii) (p' : jsstring) :
  p = c :: p' -> isWhiteSpace c = false ->
  includes (trimStart s) p = includes s p.
Proof.
  intros -> W. induction s as [|a s IH]; [reflexivity|].
  simpl trimStart. destruct (isWhiteSpace a) eqn:E; [|reflexivity].
  rewrite IH. simpl.
  destruct (Ascii.eqb c a) eqn:Q; [|reflexivity].
  apply Ascii.eqb_eq in Q. congruence.
Qed.

Lemma rev_head_last (p : jsstring) (d : ascii) :
  p <> [] -> exists t, rev p = last p d :: t.
Proof.
  intros NE. exists (rev (removelast p)).
  rewrite <- rev_unit. f_equal. now apply app_removelast_last.
Qed.

Lemma includes_trim (s p : jsstring) :
  edgeFree p = true -> includes (trim s) p = includes s p.
Proof.
  intros F. destruct p as [|c p']; [discriminate|].
  simpl in F. apply andb_prop in F as [F1 F2].
  apply negb_true_iff in F1, F2.
  destruct (rev_head_last (c :: p') c) as [t T]; [discriminate|].
  unfold trim, trimEnd.
  rewrite <- includes_rev, rev_involutive.
  rewrite (includes_trimStart _ _ _ t T F2).
  rewrite includes_rev.
  now apply (includes_trimStart s (c :: p') c p').
Qed.

Lemma phrases_edgeFree :
  forallb edgeFree CommitMsg.trivialPatterns = true.
Proof. vm_compute. reflexivity. Qed.

Lemma flagsOf_trim (m : jsstring) :
  CommitMsg.flagsOf (trim m) = CommitMsg.flagsOf m.
Proof.
  rewrite !flagsOf_eq, trim_idem. f_equal.
  unfold some. apply existsb_ext_in. intros p I.
  rewrite <- trim_lower. apply includes_trim.
  rewrite (phrases_lower I).
  pose proof phrases_edgeFree as F. rewrite forallb_forall in F. now apply F.
Qed.

Lemma readable_message (env : Env) (path content : jsstring) :
  argv2 env = Some path -> path <> [] ->
  fsEntry env path = RegularFile content ->
  CommitMsg.getCommitMessage env = Ok (trim content).
Proof.
  intros A NE F. unfold CommitMsg.getCommitMessage. rewrite A, F.
  destruct path; [contradiction | reflexivity].
Qed.

Lemma getCommitMessage_trimmed (env : Env) (m : jsstring) :
  CommitMsg.getCommitMessage env = Ok m -> trim m = m.
Proof.
  unfold CommitMsg.getCommitMessage.
  destruct (argv2 env) as [path|]; [|now intros [= <-]].
  destruct (truthy path && existsSync (fsEntry env path));
    [|now intros [= <-]].
  destruct (readFileSync (fsEntry env path)); [|discriminate].
  intros [= <-]. apply trim_idem.
Qed.

Lemma execSync_trimmed (p : ProcResult) (m : jsstring) :
  match execSync p with Ok out => Ok (trim out) | Throw => Throw end = Ok m ->
  trim m = m.
Proof.
  destruct (execSync p); [|discriminate]. intros [= <-]. apply trim_idem.
Qed.

End Sources.

Import MessageShape.

(** X1.  Every text the scripts take from outside is trimmed once and for
    all: the message of [getCommitMessage] and of [getLastCommitMessage] and
    the diff of both [getStagedChanges] are fixed by [trim].  So the
    [commitMessage.trim()] of [main] is [commitMessage] itself: the length
    that is compared with 4 is the length of the message. *)
Theorem X1_sources_trimmed :
  forall (env : Env) (t : jsstring),
    CommitMsg.getCommitMessage env = Ok t \/
    CommitMsg.getStagedChanges env = Ok t \/
    CheckCommit.getLastCommitMessage env = Ok t \/
    CheckCommit.getStagedChanges env = Ok t ->
    trim t = t /\
    CommitMsg.isTooShort (CommitMsg.flagsOf t) = (length t <? 4).
Proof.
  intros env t H.
  assert (T : trim t = t).
  { destruct H as [H|[H|[H|H]]].
    - exact (getCommitMessage_trimmed env t H).
    - exact (execSync_trimmed _ t H).
    - exact (execSync_trimmed _ t H).
    - exact (execSync_trimmed _ t H). }
  split; [exact T|]. now rewrite short_flag, T.
Qed.

Lemma X1_witness :
  trim (str "Add parser") = str "Add parser" /\
  CommitMsg.isTooShort (CommitMsg.flagsOf (str "Add parser"))
  = (length (str "Add parser") <? 4).
Proof.
  apply (X1_sources_trimmed
           (Samples.hookRun (str "  Add parser
") (mkProc 0 []))).
  left. reflexivity.
Defined.

(** X2.  With a message file that can be read and an [execSync] call for
    [git diff --cached] that returns, the commit-message script ends
    silently with status 0 exactly when the file holds nothing but white
    space (an empty file included): a blank message is skipped, never judged
    too short. *)
Theorem X2_blank_message_skipped :
  forall (env : Env) (path content d : jsstring),
    argv2 env = Some path -> path <> [] ->
    fsEntry env path = RegularFile content ->
    CommitMsg.getStagedChanges env = Ok d ->
    (allWhiteSpace content = true <-> CommitMsg.main env = Exit 0 []).
Proof.
  intros env path content d A NE F Hd.
  pose proof (readable_message env path content A NE F) as Hm.
  rewrite (main_with _ Hm Hd), <- trim_nil_iff.
  destruct (trim content) as [|c t]; cbn [truthy negb].
  - tauto.
  - split; [discriminate|].
    destruct (CommitMsg.blocks _); discriminate.
Qed.

Lemma X2_witness :
  CommitMsg.main
    (Samples.hookRun (ascii_of_nat 10 :: str "   ") (mkProc 0 []))
  = Exit 0 [].
Proof.
  apply (X2_blank_message_skipped
           (Samples.hookRun (ascii_of_nat 10 :: str "   ") (mkProc 0 []))
           Samples.msgFile (ascii_of_nat 10 :: str "   ") []);
    try reflexivity.
  discriminate.
Defined.

(** X3.  The three flags do not see white space around the message: a
    message and its trimmed form are classified alike.  (No phrase starts or
    ends with white space, and the two other rules trim.) *)
Theorem X3_flags_ignore_outer_space :
  forall m : jsstring,
    CommitMsg.flagsOf (trim m) = CommitMsg.flagsOf m /\
    CommitMsg.classify (trim m) = CommitMsg.classify m.
Proof.
  intros m. split; [apply flagsOf_trim|].
  unfold CommitMsg.classify. now rewrite flagsOf_trim.
Qed.

(** X4.  Text added around a message never clears the phrase rule: once a
    message contains a phrase, every message that contains it is Blocked
    too. *)
Theorem X4_phrase_rule_context :
  forall a m b : jsstring,
    CommitMsg.isTrivialCommitMessage (CommitMsg.flagsOf m) = true ->
    CommitMsg.isTrivialCommitMessage (CommitMsg.flagsOf (a ++ m ++ b)) = true /\
    CommitMsg.classify (a ++ m ++ b) = Blocked.
Proof.
  intros a m b H. apply phrase_flag_inv in H as (p & I & H).
  assert (G : includes (toLowerCase (a ++ m ++ b)) p = true).
  { rewrite !toLowerCase_app. now apply includes_context. }
  split; [exact (phrase_flag _ I G)|].
  apply classify_blocked. exact (phrase_blocks _ I G).
Qed.

Lemma X4_witness :
  CommitMsg.classify
    (str "docs: " ++ str "Fix Typo" ++ str " in the install guide") = Blocked.
Proof.
  apply (X4_phrase_rule_context (str "docs: ") (str "Fix Typo")
           (str " in the install guide")).
  vm_compute. reflexivity.
Defined.

(** ** The two scripts as wholes *)

Section Scripts.

Lemma checkCommit_phrase_iff (m : jsstring) :
  CheckCommit.isTrivialCommitMessage m = true <->
  exists p, In p CheckCommit.trivialPatterns /\
            includes (toLowerCase m) p = true.
Proof.
  unfold CheckCommit.isTrivialCommitMessage, some. apply existsb_exists.
Qed.

Lemma checkCommit_sources (env : Env) (lo di : jsstring) :
  execSync (gitLog env) = Ok lo -> execSync (gitDiffCached env) = Ok di ->
  CheckCommit.getLastCommitMessage env = Ok (trim lo) /\
  CheckCommit.getStagedChanges env = Ok (trim di).
Proof.
  intros L D.
  unfold CheckCommit.getLastCommitMessage, CheckCommit.getStagedChanges.
  now rewrite L, D.
Qed.

Lemma commitMsg_message_inv (env : Env) (m : jsstring) :
  CommitMsg.getCommitMessage env = Ok m -> m <> [] ->
  exists path content,
    argv2 env = Some path /\ path <> [] /\
    fsEntry env path = RegularFile content /\ m = trim content.
Proof.
  unfold CommitMsg.getCommitMessage.
  destruct (argv2 env) as [path|]; [|intros [= <-]; contradiction].
  destruct path as [|c path]; [intros [= <-]; contradiction|].
  cbn [truthy andb].
  destruct (fsEntry env (c :: path)) as [|content|] eqn:F; cbn.
  - intros [= <-]; contradiction.
  - intros [= <-] _. exists (c :: path), content.
    split; [reflexivity|]. split; [discriminate|]. now split.
  - discriminate.
Qed.

End Scripts.

(** X5.  The commit-message script reads the staged diff and never uses
    it: its outcome stays the same when the result of [git diff --cached]
    is replaced by any other for which [execSync] throws or returns alike,
    and when [git log] is replaced by anything. *)
Theorem X5_diff_text_unused :
  forall (env : Env) (log diff' : ProcResult),
    (execSync diff' = Throw <-> execSync (gitDiffCached env) = Throw) ->
    CommitMsg.main (mkEnv (argv2 env) (fsEntry env) log diff')
    = CommitMsg.main env.
Proof.
  intros env log diff' H.
  assert (K : forall k : Outcome CommitMsg.Line,
    bind (CommitMsg.getStagedChanges
            (mkEnv (argv2 env) (fsEntry env) log diff')) (fun _ => k)
    = bind (CommitMsg.getStagedChanges env) (fun _ => k)).
  { intros k. unfold CommitMsg.getStagedChanges. cbn [gitDiffCached].
    destruct (execSync diff') as [o|];
      destruct (execSync (gitDiffCached env)) as [o'|];
      cbn [bind]; try reflexivity.
    - discriminate (proj2 H eq_refl).
    - discriminate (proj1 H eq_refl). }
  unfold CommitMsg.main.
  replace (CommitMsg.getCommitMessage
             (mkEnv (argv2 env) (fsEntry env) log diff'))
    with (CommitMsg.getCommitMessage env) by reflexivity.
  destruct (CommitMsg.getCommitMessage env) as [m|]; cbn [bind];
    [apply K | reflexivity].
Qed.

Lemma X5_witness :
  CommitMsg.main
    (mkEnv (argv2 (Samples.hookRun (str "Add parser") (mkProc 0 [])))
           (fsEntry (Samples.hookRun (str "Add parser") (mkProc 0 [])))
           (mkProc 128 []) (mkProc 0 (str "+a  b")))
  = CommitMsg.main (Samples.hookRun (str "Add parser") (mkProc 0 [])).
Proof.
  apply X5_diff_text_unused. split; discriminate.
Defined.

(** X6.  scripts/check-commit.js reaches [process.exit(1)] exactly when
    [execSync] returns for both git commands, the trimmed last commit
    message contains one of its six phrases in some case, and the trimmed
    staged diff has two white-space code units in a row or is a one-line
    addition of a documentation path; it has then logged its two error
    lines. *)
Theorem X6_checkCommit_blocks_iff :
  forall (env : Env) (out : list CheckCommit.Line),
    CheckCommit.main env = Exit 1 out <->
    exists lo di,
      execSync (gitLog env) = Ok lo /\
      execSync (gitDiffCached env) = Ok di /\
      (exists p, In p CheckCommit.trivialPatterns /\
                 includes (toLowerCase (trim lo)) p = true) /\
      (hasWhitespaceRun (trim di) \/ isDocAddition (trim di)) /\
      out = [CheckCommit.LogError; CheckCommit.LogAmend].
Proof.
  intros env out. split.
  - intros H. pose proof H as H0.
    apply checkCommit_exit1 in H as (m & d & Hm & Hd & P & T).
    rewrite (checkCommit_main_with _ Hm Hd), P, T in H0.
    unfold CheckCommit.getLastCommitMessage in Hm.
    unfold CheckCommit.getStagedChanges in Hd.
    destruct (execSync (gitLog env)) as [lo|] eqn:L; [|discriminate].
    destruct (execSync (gitDiffCached env)) as [di|] eqn:D; [|discriminate].
    injection Hm as <-. injection Hd as <-.
    exists lo, di. split; [reflexivity|]. split; [reflexivity|].
    split; [now apply checkCommit_phrase_iff|].
    split; [now apply isTrivialChange_iff|].
    now injection H0 as <-.
  - intros (lo & di & L & D & P & T & ->).
    destruct (checkCommit_sources env lo di L D) as [Hm Hd].
    rewrite (checkCommit_main_with _ Hm Hd).
    apply checkCommit_phrase_iff in P. apply isTrivialChange_iff in T.
    now rewrite P, T.
Qed.

(** X7.  On a text that does not start with [+], as the output of
    [git diff] never does (it starts with "diff --git"), the alternative of
    [isTrivialChange] for documentation files cannot match: the text is
    trivial exactly when it has two white-space code units in a row.  The
    empty diff is not trivial. *)
Theorem X7_doc_alternative_dead :
  forall d : jsstring,
    (forall d', d <> "+"%char :: d') ->
    (isMatch (CheckCommit.isTrivialChange d) = true <-> hasWhitespaceRun d).
Proof.
  intros d N. rewrite isTrivialChange_iff. split; [|tauto].
  intros [W|(body & ext & E & _)]; [exact W|].
  exfalso. exact (N _ E).
Qed.

Lemma X7_witness :
  isMatch (CheckCommit.isTrivialChange (str "diff --git a/README.md b/README.md"))
  = true
  <-> hasWhitespaceRun (str "diff --git a/README.md b/README.md").
Proof.
  apply X7_doc_alternative_dead. intros d'. discriminate.
Defined.

(** X8.  When nothing is staged (the text [execSync] returns for
    [git diff --cached] is empty or white space only) and [execSync] returns
    for [git log] too, scripts/check-commit.js lets the commit pass whatever
    the last commit message says. *)
Theorem X8_nothing_staged_passes :
  forall (env : Env) (lo di : jsstring),
    execSync (gitLog env) = Ok lo ->
    execSync (gitDiffCached env) = Ok di ->
    allWhiteSpace di = true ->
    CheckCommit.main env = Exit 0 [CheckCommit.LogOkay].
Proof.
  intros env lo di L D W.
  destruct (checkCommit_sources env lo di L D) as [Hm Hd].
  rewrite (checkCommit_main_with _ Hm Hd).
  apply trim_nil_iff in W. rewrite W.
  now rewrite andb_false_r.
Qed.

Lemma X8_witness :
  CheckCommit.main (Samples.preCommitRun (str "fix typo") [ascii_of_nat 10])
  = Exit 0 [CheckCommit.LogOkay].
Proof.
  apply (X8_nothing_staged_passes
           (Samples.preCommitRun (str "fix typo") [ascii_of_nat 10])
           (str "fix typo") [ascii_of_nat 10]); reflexivity.
Defined.



(** ** Families of messages the patterns catch *)

Section Families.

Ltac inv_seq M M1 M2 :=
  inversion M as [| | |? ? ? ? ? M1 M2| | | | | |]; subst; clear M.
Ltac inv_chr M H :=
  inversion M as [|? ? ? H| | | | | | | |]; subst; clear M.
Ltac inv_alt M M1 :=
  inversion M as [| | | |? ? ? ? M1|? ? ? ? M1| | | |]; subst; clear M.

Lemma last_app_ne (a b : jsstring) (d : ascii) :
  b <> [] -> last (a ++ b) d = last b d.
Proof.
  intros NE. induction a as [|c a IH]; [reflexivity|].
  simpl app. change (last (c :: a ++ b) d)
    with (match a ++ b with [] => c | _ :: _ => last (a ++ b) d end).
  destruct (a ++ b) eqn:E; [|exact IH].
  destruct a; [contradiction | discriminate].
Qed.

Lemma last_forallb (P : ascii -> bool) (m : jsstring) (d : ascii) :
  m <> [] -> forallb P m = true -> P (last m d) = true.
Proof.
  intros NE F. rewrite forallb_forall in F. apply F.
  destruct (exists_last NE) as (l & a & ->).
  rewrite last_last. apply in_or_app. right. now left.
Qed.

Lemma trim_fixed (m : jsstring) : edgeFree m = true -> trim m = m.
Proof.
  intros F. destruct m as [|c t]; [discriminate|].
  simpl in F. apply andb_prop in F as [F1 F2].
  apply negb_true_iff in F1, F2.
  destruct (rev_head_last (c :: t) c) as [u U]; [discriminate|].
  assert (A : trimStart (c :: t) = c :: t) by (simpl; now rewrite F1).
  assert (B : trimStart (last (c :: t) c :: u) = last (c :: t) c :: u)
    by (simpl trimStart; now rewrite F2).
  unfold trim, trimEnd. rewrite A, U, B, <- U. apply rev_involutive.
Qed.

Lemma edgeFree_ends (m : jsstring) (c : ascii) (t : jsstring) :
  m = c :: t -> isWhiteSpace c = false ->
  isWhiteSpace (last m c) = false -> edgeFree m = true.
Proof. intros -> H1 H2. simpl. simpl in H2. now rewrite H1, H2. Qed.

Lemma classMember_classMatch (ic : bool) (k : CharClass) (ch : ascii) :
  classMember k ch = true -> classMatch ic k ch = true.
Proof.
  intros H. unfold classMatch. destruct ic; [|exact H].
  apply existsb_exists. exists ch. split; [apply allUnits_complete|].
  now rewrite H, N.eqb_refl.
Qed.

Lemma charMatch_same_lower (c ch : ascii) :
  lowerChar c = lowerChar ch -> charMatch true c ch = true.
Proof.
  intros H. unfold charMatch. apply N.eqb_eq.
  now rewrite <- (canonicalize_lower c), <- (canonicalize_lower ch), H.
Qed.

(** The lower-case form of a code unit, read off what it canonicalizes
    to. *)
Lemma canonicalize_decides_lower (c ch : ascii) :
  charMatch true c ch = true -> lowerChar c = lowerChar ch.
Proof.
  pose (f := fun n : N =>
               if (n =? 376)%N then ascii_of_N 255
               else if (n =? 924)%N then ascii_of_N 181
               else lowerChar (ascii_of_N n)).
  assert (A : forall x, f (canonicalize true x) = lowerChar x).
  { intros x. apply Ascii.eqb_eq. revert x. apply forall_units.
    vm_compute. reflexivity. }
  unfold charMatch. intros H. apply N.eqb_eq in H.
  now rewrite <- (A c), <- (A ch), H.
Qed.

Lemma star_atoms (ic : bool) (n : nat) (r : regex) (body y : jsstring) :
  (forall c x, In c body -> Matches ic n r (c :: x) x) ->
  Matches ic n (Star r) (body ++ y) y.
Proof.
  induction body as [|c body IH]; intros H; simpl.
  - constructor.
  - eapply MStarS.
    + apply H. now left.
    + simpl. lia.
    + apply IH. intros c' x I. apply H. now right.
Qed.

Lemma plus_atoms (ic : bool) (n : nat) (r : regex) (body y : jsstring) :
  body <> [] ->
  (forall c x, In c body -> Matches ic n r (c :: x) x) ->
  Matches ic n (Plus r) (body ++ y) y.
Proof.
  intros NE H. destruct body as [|c body]; [contradiction|].
  unfold Plus. simpl. econstructor.
  - apply H. now left.
  - apply star_atoms. intros c' x I. apply H. now right.
Qed.

Lemma plus_class (ic : bool) (n : nat) (k : CharClass) (body y : jsstring) :
  body <> [] -> forallb (classMember k) body = true ->
  Matches ic n (Plus (Cls k)) (body ++ y) y.
Proof.
  intros NE F. apply plus_atoms; [exact NE|].
  intros c x I. constructor. apply classMember_classMatch.
  rewrite forallb_forall in F. now apply F.
Qed.

Lemma plus_char (n : nat) (a : ascii) (body y : jsstring) :
  body <> [] -> forallb (Ascii.eqb a) body = true ->
  Matches false n (Plus (Chr a)) (body ++ y) y.
Proof.
  intros NE F. apply plus_atoms; [exact NE|].
  intros c x I. constructor. apply charMatch_exact.
  rewrite forallb_forall in F. apply Ascii.eqb_eq. now apply F.
Qed.

(** A literal under the i flag matches a text with the same lower-case
    form, and nothing else. *)
Lemma lit_Matches_ic (n : nat) (l h y : jsstring) :
  l <> [] -> toLowerCase h = toLowerCase l ->
  Matches true n (seqs (map Chr l)) (h ++ y) y.
Proof.
  revert h. induction l as [|a l IH]; intros h NE E; [contradiction|].
  destruct h as [|c h]; [discriminate|]. injection E as E1 E2.
  destruct l as [|b l].
  - destruct h; [|discriminate]. simpl. constructor.
    now apply charMatch_same_lower.
  - change (seqs (map Chr (a :: b :: l)))
      with (Seq (Chr a) (seqs (map Chr (b :: l)))).
    simpl. econstructor.
    + constructor. now apply charMatch_same_lower.
    + apply IH; [discriminate | exact E2].
Qed.

Lemma Matches_lit_ic (n : nat) (l x y : jsstring) :
  l <> [] -> Matches true n (seqs (map Chr l)) x y ->
  exists w, x = w ++ y /\ toLowerCase w = toLowerCase l.
Proof.
  revert x. induction l as [|a l IH]; intros x NE M; [contradiction|].
  destruct l as [|b l].
  - simpl in M. inv_chr M H. exists [ch]. split; [reflexivity|].
    simpl. f_equal. symmetry. now apply canonicalize_decides_lower.
  - change (seqs (map Chr (a :: b :: l)))
      with (Seq (Chr a) (seqs (map Chr (b :: l)))) in M.
    inv_seq M M1 M2. inv_chr M1 H.
    destruct (IH _ ltac:(discriminate) M2) as (w & -> & E).
    exists (ch :: w). split; [reflexivity|].
    simpl. f_equal; [|exact E].
    symmetry. now apply canonicalize_decides_lower.
Qed.

Lemma regex_flag_hit (m : jsstring) (R : RegExp) :
  In R CommitMsg.trivialRegexPatterns -> hit (trim m) R = true ->
  CommitMsg.matchesTrivialRegex (CommitMsg.flagsOf m) = true /\
  CommitMsg.classify m = Blocked.
Proof.
  intros I H.
  assert (F : CommitMsg.matchesTrivialRegex (CommitMsg.flagsOf m) = true).
  { rewrite flagsOf_eq. cbn [CommitMsg.matchesTrivialRegex].
    apply existsb_exists. now exists R. }
  split; [exact F|]. apply classify_blocked. unfold CommitMsg.blocks.
  rewrite F. now rewrite orb_true_r.
Qed.

Lemma hit_whole (R : RegExp) (m : jsstring) :
  Matches (ignoreCase R) (length m) (source R) m [] -> hit m R = true.
Proof.
  intros M. unfold hit. apply isMatch_scan_iff. now exists [], m, [].
Qed.

End Families.

Section FamilyMatches.

Lemma digit_not_space (c : ascii) :
  isDigit c = true -> isWhiteSpace c = false.
Proof.
  intros H.
  assert (A : forallb (fun x => implb (isDigit x) (negb (isWhiteSpace x)))
                allUnits = true) by (vm_compute; reflexivity).
  apply forall_units with (c := c) in A. rewrite H in A.
  now apply negb_true_iff in A.
Qed.

Lemma word_not_space (c : ascii) :
  classMember ClsWord c = true -> isWhiteSpace c = false.
Proof.
  intros H.
  assert (A : forallb (fun x => implb (classMember ClsWord x)
                                      (negb (isWhiteSpace x)))
                allUnits = true) by (vm_compute; reflexivity).
  apply forall_units with (c := c) in A. rewrite H in A.
  now apply negb_true_iff in A.
Qed.

Lemma run_edgeFree (P : ascii -> bool) (m : jsstring) :
  (forall c, P c = true -> isWhiteSpace c = false) ->
  m <> [] -> forallb P m = true -> edgeFree m = true.
Proof.
  intros W NE F. destruct m as [|c t] eqn:E; [contradiction|].
  apply (edgeFree_ends (c :: t) c t eq_refl).
  - apply W. simpl in F. now apply andb_prop in F as [F _].
  - apply W. now apply last_forallb.
Qed.

Lemma whole_plus (ic : bool) (r : regex) (m : jsstring) :
  Matches ic (length m) (Plus r) (m ++ []) [] ->
  Matches ic (length m) (seqs [Bol; Plus r; Eol]) m [].
Proof.
  rewrite app_nil_r. intros M.
  change (seqs [Bol; Plus r; Eol]) with (Seq Bol (Seq (Plus r) Eol)).
  econstructor; [now constructor|].
  econstructor; [exact M | constructor].
Qed.

Lemma two_words_match (l h sp w : jsstring) :
  l <> [] -> toLowerCase h = toLowerCase l ->
  sp <> [] -> allWhiteSpace sp = true ->
  w <> [] -> forallb (classMember ClsWord) w = true ->
  Matches true (length (h ++ sp ++ w))
    (seqs [Bol; seqs (map Chr l);
           Opt (seqs [Plus CommitMsg.ws; Plus CommitMsg.word]); Eol])
    (h ++ sp ++ w) [].
Proof.
  intros NL E NS S NW W.
  change (seqs [Bol; seqs (map Chr l);
                Opt (seqs [Plus CommitMsg.ws; Plus CommitMsg.word]); Eol])
    with (Seq Bol (Seq (seqs (map Chr l))
            (Seq (Alt (Seq (Plus CommitMsg.ws) (Plus CommitMsg.word)) Eps)
                 Eol))).
  econstructor; [now constructor|].
  econstructor; [now apply lit_Matches_ic|].
  apply MSeq with (y := []); [|constructor].
  apply MAltL. apply MSeq with (y := w).
  - now apply plus_class.
  - pose proof (plus_class true (length (h ++ sp ++ w)) ClsWord w [] NW W) as P.
    now rewrite app_nil_r in P.
Qed.

Lemma two_words_edgeFree (l h sp w : jsstring) (a : ascii) (l' : jsstring) :
  l = a :: l' -> isWhiteSpace a = false ->
  toLowerCase h = toLowerCase l ->
  w <> [] -> forallb (classMember ClsWord) w = true ->
  edgeFree (h ++ sp ++ w) = true.
Proof.
  intros -> A E NW W. destruct h as [|c h']; [discriminate|].
  injection E as E _.
  apply (edgeFree_ends _ c (h' ++ sp ++ w) eq_refl).
  - now rewrite <- lowerChar_space, E, lowerChar_space.
  - change (c :: h' ++ sp ++ w) with ((c :: h') ++ sp ++ w).
    rewrite (last_app_ne (c :: h') (sp ++ w) c),
            (last_app_ne sp w c NW).
    + apply word_not_space. now apply last_forallb.
    + destruct sp; [exact NW | discriminate].
Qed.

End FamilyMatches.

(** X10.  A message that is not empty and made of digits only, of dots
    only, or of dashes only sets [matchesTrivialRegex] and is Blocked,
    however long it is. *)
Theorem X10_symbol_runs_blocked :
  forall m : jsstring,
    m <> [] ->
    forallb isDigit m = true \/
    forallb (Ascii.eqb ".") m = true \/
    forallb (Ascii.eqb "-") m = true ->
    CommitMsg.matchesTrivialRegex (CommitMsg.flagsOf m) = true /\
    CommitMsg.classify m = Blocked.
Proof.
  intros m NE [D|[D|D]].
  - apply (regex_flag_hit m (literal (seqs [Bol; Plus (Cls ClsDigit); Eol]) false)).
    + unfold CommitMsg.trivialRegexPatterns.
      repeat (first [left; reflexivity | right]).
    + rewrite (trim_fixed m (run_edgeFree isDigit m digit_not_space NE D)).
      apply hit_whole. apply whole_plus. now apply plus_class.
  - apply (regex_flag_hit m (literal (seqs [Bol; Plus (Chr "."); Eol]) false)).
    + unfold CommitMsg.trivialRegexPatterns.
      repeat (first [left; reflexivity | right]).
    + rewrite (trim_fixed m (run_edgeFree (Ascii.eqb ".") m
                 ltac:(intros c H; apply Ascii.eqb_eq in H; now subst) NE D)).
      apply hit_whole. apply whole_plus. now apply plus_char.
  - apply (regex_flag_hit m (literal (seqs [Bol; Plus (Chr "-"); Eol]) false)).
    + unfold CommitMsg.trivialRegexPatterns.
      repeat (first [left; reflexivity | right]).
    + rewrite (trim_fixed m (run_edgeFree (Ascii.eqb "-") m
                 ltac:(intros c H; apply Ascii.eqb_eq in H; now subst) NE D)).
      apply hit_whole. apply whole_plus. now apply plus_char.
Qed.

Lemma X10_witness :
  CommitMsg.matchesTrivialRegex (CommitMsg.flagsOf (str "20240517")) = true /\
  CommitMsg.classify (str "20240517") = Blocked.
Proof.
  apply X10_symbol_runs_blocked; [discriminate|]. left. reflexivity.
Defined.

(** X11.  "minor", "small" or "quick" with any of its letters in upper
    case, then white space of any kind and length (line breaks too), then
    one word of letters, digits and underscores: such a message sets
    [matchesTrivialRegex] and is Blocked. *)
Theorem X11_two_word_messages_blocked :
  forall head h sp w : jsstring,
    In head (map str ["minor"; "small"; "quick"]%string) ->
    map foldAscii h = head ->
    sp <> [] -> allWhiteSpace sp = true ->
    w <> [] -> forallb (classMember ClsWord) w = true ->
    CommitMsg.matchesTrivialRegex (CommitMsg.flagsOf (h ++ sp ++ w)) = true /\
    CommitMsg.classify (h ++ sp ++ w) = Blocked.
Proof.
  intros head h sp w I F NS S NW W.
  assert (E : toLowerCase h = toLowerCase head).
  { unfold toLowerCase. rewrite <- F, map_map.
    apply map_ext. intros c. symmetry. apply lowerChar_fold. }
  assert (G : forall l : string,
    head = str l -> str l <> [] ->
    (exists a l', str l = a :: l' /\ isWhiteSpace a = false) ->
    toLowerCase (str l) = str l ->
    In (literal (seqs [Bol; lit l;
                       Opt (seqs [Plus CommitMsg.ws; Plus CommitMsg.word]);
                       Eol]) true) CommitMsg.trivialRegexPatterns ->
    CommitMsg.matchesTrivialRegex (CommitMsg.flagsOf (h ++ sp ++ w)) = true /\
    CommitMsg.classify (h ++ sp ++ w) = Blocked).
  { intros l -> NL (a & l' & El & A) Lo IR.
    pose proof E as E'.
    apply (regex_flag_hit _ _ IR).
    rewrite (trim_fixed _ (two_words_edgeFree (str l) h sp w a l' El A E' NW W)).
    apply hit_whole. now apply two_words_match. }
  simpl in I. destruct I as [I|[I|[I|[]]]]; symmetry in I.
  - apply (G "minor"%string I); try reflexivity; try discriminate.
    + eexists _, _. split; reflexivity.
    + unfold CommitMsg.trivialRegexPatterns.
      repeat (first [left; reflexivity | right]).
  - apply (G "small"%string I); try reflexivity; try discriminate.
    + eexists _, _. split; reflexivity.
    + unfold CommitMsg.trivialRegexPatterns.
      repeat (first [left; reflexivity | right]).
  - apply (G "quick"%string I); try reflexivity; try discriminate.
    + eexists _, _. split; reflexivity.
    + unfold CommitMsg.trivialRegexPatterns.
      repeat (first [left; reflexivity | right]).
Qed.

Lemma X11_witness :
  CommitMsg.classify
    (str "Quick" ++ [" "%char; ascii_of_nat 10] ++ str "start_2") = Blocked.
Proof.
  apply (X11_two_word_messages_blocked (str "quick") (str "Quick")
           [" "%char; ascii_of_nat 10] (str "start_2")).
  - right. right. left. reflexivity.
  - reflexivity.
  - discriminate.
  - reflexivity.
  - discriminate.
  - reflexivity.
Defined.

(** ** Rules that never decide *)

Section Overlap.

Ltac inv_seq M M1 M2 :=
  inversion M as [| | |? ? ? ? ? M1 M2| | | | | |]; subst; clear M.
Ltac inv_alt M M1 :=
  inversion M as [| | | |? ? ? ? M1|? ? ? ? M1| | | |]; subst; clear M.

Lemma class_eqb_eq (k1 k2 : CharClass) : class_eqb k1 k2 = true -> k1 = k2.
Proof.
  destruct k1, k2; simpl; try discriminate; try reflexivity.
  intros H. apply andb_prop in H as [H1 H2].
  apply Ascii.eqb_eq in H1, H2. now subst.
Qed.

Lemma regex_eqb_eq (r1 r2 : regex) : regex_eqb r1 r2 = true -> r1 = r2.
Proof.
  revert r2. induction r1 as [|c|k|a IHa b IHb|a IHa b IHb|a IHa| |];
    intros r2; destruct r2; simpl; try discriminate; try reflexivity; intros H.
  - apply Ascii.eqb_eq in H. now subst.
  - apply class_eqb_eq in H. now subst.
  - apply andb_prop in H as [H1 H2]. now rewrite (IHa _ H1), (IHb _ H2).
  - apply andb_prop in H as [H1 H2]. now rewrite (IHa _ H1), (IHb _ H2).
  - now rewrite (IHa _ H).
Qed.

Lemma needs_unfold (r : regex) (p : jsstring) :
  needs r p
  = regex_eqb r (seqs (map Chr p)) ||
    match r with
    | Seq r1 r2 => needs r1 p || needs r2 p
    | Alt r1 r2 => needs r1 p && needs r2 p
    | _ => false
    end.
Proof. destruct r; reflexivity. Qed.

(** Under the i flag, whatever a pattern that needs [p] matches contains
    [p] up to case. *)
Lemma needs_sound (n : nat) (p : jsstring) (r : regex) :
  p <> [] ->
  forall x y, needs r p = true -> Matches true n r x y ->
  exists a w b, x = a ++ w ++ b /\ toLowerCase w = toLowerCase p.
Proof.
  intros NE.
  assert (L : forall r x y, regex_eqb r (seqs (map Chr p)) = true ->
                Matches true n r x y ->
                exists a w b, x = a ++ w ++ b /\ toLowerCase w = toLowerCase p).
  { intros r0 x y Q M. apply regex_eqb_eq in Q. subst r0.
    destruct (Matches_lit_ic n p x y NE M) as (w & -> & E).
    now exists [], w, y. }
  induction r as [|c|k|r1 IH1 r2 IH2|r1 IH1 r2 IH2|r0 IH0| |];
    intros x y N M; rewrite needs_unfold in N;
    apply orb_prop in N as [N|N]; eauto; try discriminate.
  - inv_seq M M1 M2. apply orb_prop in N as [N|N].
    + exact (IH1 _ _ N M1).
    + destruct (IH2 _ _ N M2) as (a & w & b & -> & E).
      destruct (Matches_suffix M1) as [u ->].
      exists (u ++ a), w, b. split; [now rewrite <- app_assoc | exact E].
  - apply andb_prop in N as [N1 N2]. inv_alt M M1.
    + exact (IH1 _ _ N1 M1).
    + exact (IH2 _ _ N2 M1).
Qed.

Lemma minimal_covers :
  forallb (fun p => existsb (fun q => includes p q) minimalPhrases)
          CommitMsg.trivialPatterns = true.
Proof. vm_compute. reflexivity. Qed.

Lemma phraseCovered_In (R : RegExp) :
  In R phraseCovered ->
  In R CommitMsg.trivialRegexPatterns /\
  ignoreCase R = true /\
  exists p, In p CommitMsg.trivialPatterns /\ p <> [] /\
            needs (source R) p = true.
Proof.
  unfold phraseCovered.
  generalize CommitMsg.trivialRegexPatterns, CommitMsg.trivialPatterns.
  intros rs ps I. apply filter_In in I as [I F].
  apply andb_prop in F as [IC F].
  apply existsb_exists in F as (p & Ip & F).
  apply andb_prop in F as [NE N].
  split; [exact I|]. split; [exact IC|].
  exists p. split; [exact Ip|]. split; [|exact N].
  destruct p; [discriminate | discriminate].
Qed.

Lemma minimal_In (q : jsstring) :
  In q minimalPhrases -> In q CommitMsg.trivialPatterns.
Proof.
  unfold minimalPhrases. generalize CommitMsg.trivialPatterns at 2 3.
  intros l I. now apply filter_In in I.
Qed.

End Overlap.

(** X12.  Eight of the 24 patterns never decide: a message that one of the
    patterns of [phraseCovered] matches contains a phrase of the phrase list
    already, so the phrase rule fires on it whatever the regex rule says.
    They are the patterns built on "typo" (two of them), "minor", "wip",
    "temp", "oops", "lint" and "cleanup". *)
Theorem X12_patterns_covered_by_phrases :
  (forall (R : RegExp) (m : jsstring),
     In R phraseCovered ->
     fst (test R (trim m)) = true ->
     CommitMsg.isTrivialCommitMessage (CommitMsg.flagsOf m) = true) /\
  length phraseCovered = 8.
Proof.
  split; [|vm_compute; reflexivity].
  intros R m I T.
  apply phraseCovered_In in I as (I & IC & p & Ip & NE' & N).
  rewrite (hit_test _ I) in T. unfold hit in T. rewrite IC in T.
  apply isMatch_scan_iff in T as (pre & x & y & E & M).
  destruct (needs_sound _ p (source R) NE' x y N M) as (a & w & b & -> & Ew).
  apply (phrase_flag _ Ip).
  assert (Q : edgeFree p = true).
  { pose proof phrases_edgeFree as A. rewrite forallb_forall in A.
    now apply A. }
  rewrite <- (includes_trim (toLowerCase m) p Q), trim_lower, E.
  rewrite !toLowerCase_app, Ew, (phrases_lower Ip).
  replace (toLowerCase pre ++ toLowerCase a ++ p ++ toLowerCase b)
    with ((toLowerCase pre ++ toLowerCase a) ++ p ++ toLowerCase b)
    by (now rewrite <- app_assoc).
  apply includes_app.
Qed.

Lemma X12_witness :
  CommitMsg.isTrivialCommitMessage (CommitMsg.flagsOf (str " Fixing a TYPOS "))
  = true.
Proof.
  apply (proj1 X12_patterns_covered_by_phrases
           (nth 0 CommitMsg.trivialRegexPatterns (literal Eps false))).
  - vm_compute. left. reflexivity.
  - vm_compute. reflexivity.
Defined.

(** X13.  The phrase rule is decided by 33 of the 58 phrases: the other 25
    contain one of those ("fix typo" contains "typo", "eslint fix" contains
    "lint"), so a message contains a phrase of the list exactly when it
    contains one of [minimalPhrases]. *)
Theorem X13_minimal_phrases :
  (forall m : jsstring,
     CommitMsg.isTrivialCommitMessage (CommitMsg.flagsOf m) = true <->
     exists q, In q minimalPhrases /\ includes (toLowerCase m) q = true) /\
  length CommitMsg.trivialPatterns = 58 /\ length minimalPhrases = 33.
Proof.
  split; [|split; vm_compute; reflexivity].
  intros m. split.
  - intros H. apply phrase_flag_inv in H as (p & I & H).
    pose proof minimal_covers as C. rewrite forallb_forall in C.
    specialize (C p I). apply existsb_exists in C as (q & Iq & C).
    exists q. split; [exact Iq|]. exact (includes_trans _ p q H C).
  - intros (q & Iq & H). apply minimal_In in Iq. exact (phrase_flag _ Iq H).
Qed.

Section Bounds.

Lemma maxLen_sound (ic : bool) (n : nat) (r : regex) (x y : jsstring) :
  Matches ic n r x y ->
  forall k, maxLen r = Some k -> length x <= length y + k.
Proof.
  induction 1 as [x|c ch x H|cl ch x H|r1 r2 x y z _ IH1 _ IH2
                 |r1 r2 x y _ IH|r1 r2 x y _ IH|r x|r x y z _ _ _ _ _
                 |x H|]; simpl; intros k E; try discriminate.
  - injection E as <-. lia.
  - injection E as <-. simpl. lia.
  - injection E as <-. simpl. lia.
  - destruct (maxLen r1) as [a|]; [|discriminate].
    destruct (maxLen r2) as [b|]; [|discriminate].
    injection E as <-.
    specialize (IH1 a eq_refl). specialize (IH2 b eq_refl). lia.
  - destruct (maxLen r1) as [a|]; [|discriminate].
    destruct (maxLen r2) as [b|]; [|discriminate].
    injection E as <-. specialize (IH a eq_refl). lia.
  - destruct (maxLen r1) as [a|]; [|discriminate].
    destruct (maxLen r2) as [b|]; [|discriminate].
    injection E as <-. specialize (IH b eq_refl). lia.
  - injection E as <-. lia.
  - injection E as <-. simpl. lia.
Qed.

Lemma lengthCovered_In (R : RegExp) :
  In R lengthCovered ->
  In R CommitMsg.trivialRegexPatterns /\
  exists k, maxLen (source R) = Some k /\ k < 4.
Proof.
  unfold lengthCovered. generalize CommitMsg.trivialRegexPatterns.
  intros rs I. apply filter_In in I as [I F]. split; [exact I|].
  destruct (maxLen (source R)) as [k|]; [|discriminate].
  exists k. split; [reflexivity|]. now apply Nat.ltb_lt.
Qed.

Lemma pattern_whole (R : RegExp) (s : jsstring) :
  In R CommitMsg.trivialRegexPatterns -> hit s R = true ->
  Matches (ignoreCase R) (length s) (source R) s [].
Proof.
  intros I H. pose proof patterns_anchored as P.
  rewrite forallb_forall in P. apply P in I.
  apply andb_prop in I as [A B].
  now apply (proj1 (@anchored_full (ignoreCase R) (source R) s A B)).
Qed.

End Bounds.

(** X14.  The commit-message script reaches [process.exit(1)] exactly when
    the argument names a file that can be read, [execSync] returns for
    [git diff --cached], the trimmed content of the file is not empty and
    one of the three rules fires on it; the first line it has logged then
    quotes the trimmed content, and three fixed lines follow. *)
Theorem X14_commitMsg_blocks_iff :
  forall (env : Env) (out : list CommitMsg.Line),
    CommitMsg.main env = Exit 1 out <->
    exists path content d,
      argv2 env = Some path /\ path <> [] /\
      fsEntry env path = RegularFile content /\
      CommitMsg.getStagedChanges env = Ok d /\
      trim content <> [] /\
      CommitMsg.blocks (CommitMsg.flagsOf (trim content)) = true /\
      out = [CommitMsg.LogDetected (trim content); CommitMsg.LogMeaningful;
             CommitMsg.LogAmend; CommitMsg.LogHistory].
Proof.
  intros env out. split.
  - intros H. pose proof H as H0.
    apply commitMsg_exit1 in H as (m & Hm & NE & B).
    destruct (commitMsg_message_inv env m Hm NE)
      as (path & content & A & NP & F & ->).
    destruct (CommitMsg.getStagedChanges env) as [d|] eqn:Hd.
    + rewrite (main_with _ Hm Hd) in H0.
      destruct (trim content) as [|c t] eqn:T; [contradiction|].
      cbn [truthy negb] in H0.
      destruct (CommitMsg.blocks (CommitMsg.flagsOf (c :: t))) eqn:Bl;
        [|discriminate].
      injection H0 as <-.
      exists path, content, d. rewrite T.
      repeat (split; [assumption || discriminate || reflexivity|]).
      reflexivity.
    + unfold CommitMsg.main in H0. rewrite Hm, Hd in H0. discriminate.
  - intros (path & content & d & A & NP & F & Hd & NE & B & ->).
    pose proof (readable_message env path content A NP F) as Hm.
    rewrite (main_with _ Hm Hd).
    destruct (trim content) as [|c t]; [contradiction|].
    cbn [truthy negb]. now rewrite B.
Qed.

(** X15.  Three more patterns never decide: what a pattern of
    [lengthCovered] matches is the whole trimmed message and has fewer than
    4 code units, so the length rule fires on it already.  They are the
    patterns for "wip", "fmt" and a single letter. *)
Theorem X15_patterns_covered_by_length :
  (forall (R : RegExp) (m : jsstring),
     In R lengthCovered ->
     fst (test R (trim m)) = true ->
     CommitMsg.isTooShort (CommitMsg.flagsOf m) = true) /\
  length lengthCovered = 3.
Proof.
  split; [|vm_compute; reflexivity].
  intros R m I T.
  apply lengthCovered_In in I as (I & k & K & L).
  rewrite (hit_test _ I) in T.
  pose proof (maxLen_sound _ _ _ _ _ (pattern_whole R (trim m) I T) k K) as B.
  simpl in B. rewrite short_flag. apply Nat.ltb_lt. lia.
Qed.

Lemma X15_witness :
  CommitMsg.isTooShort (CommitMsg.flagsOf (str "  Fmt ")) = true.
Proof.
  apply (proj1 X15_patterns_covered_by_length
           (nth 15 CommitMsg.trivialRegexPatterns (literal Eps false))).
  - vm_compute. right. left. reflexivity.
  - vm_compute. reflexivity.
Defined.

Lemma X6_witness :
  CheckCommit.main
    (Samples.preCommitRun (str "Update docs for the CLI")
                          (str "+usage:  run"))
  = Exit 1 [CheckCommit.LogError; CheckCommit.LogAmend].
Proof.
  apply (proj2 (X6_checkCommit_blocks_iff
                  (Samples.preCommitRun (str "Update docs for the CLI")
                                        (str "+usage:  run"))
                  [CheckCommit.LogError; CheckCommit.LogAmend])).
  exists (str "Update docs for the CLI"), (str "+usage:  run").
  split; [reflexivity|]. split; [reflexivity|]. split; [|split].
  - exists (str "update docs"). split; [|reflexivity].
    right. right. left. reflexivity.
  - left. exists (str "+usage:"), " "%char, " "%char, (str "run").
    repeat split.
  - reflexivity.
Defined.

Lemma X13_witness :
  exists q, In q minimalPhrases /\
            includes (toLowerCase (str "ESLint fix for the build")) q = true.
Proof.
  apply (proj1 (proj1 X13_minimal_phrases (str "ESLint fix for the build"))).
  vm_compute. reflexivity.
Defined.

Lemma X14_witness :
  CommitMsg.main (Samples.hookRun (str " tidy up ") (mkProc 0 []))
  = Exit 1 [CommitMsg.LogDetected (str "tidy up"); CommitMsg.LogMeaningful;
            CommitMsg.LogAmend; CommitMsg.LogHistory].
Proof.
  apply (proj2 (X14_commitMsg_blocks_iff
                  (Samples.hookRun (str " tidy up ") (mkProc 0 []))
                  [CommitMsg.LogDetected (str "tidy up");
                   CommitMsg.LogMeaningful; CommitMsg.LogAmend;
                   CommitMsg.LogHistory])).
  exists Samples.msgFile, (str " tidy up "), [].
  split; [reflexivity|]. split; [discriminate|]. split; [reflexivity|].
  split; [reflexivity|]. split; [discriminate|].
  split; [vm_compute; reflexivity | reflexivity].
Defined.
